(** * catbox-redis: the Redis cache adapter of [lib/index.js]

    A shallow embedding of the adapter (connection life cycle, key
    generation, envelope encoding and decoding, get / set / drop) and the
    properties of its specification.

    Conventions of the embedding:
    - a JavaScript string is a [string]; a Node [Buffer] is a [list byte];
      [Buffer.from(s)] and [buf.toString()] are the conversions between the
      two (the string is read as its UTF-8 bytes);
    - a JavaScript number is an integer [Z] (time stamps, ttls, ports and
      database indexes are integers; of a number inside a cached item only
      its being zero or not matters to the code);
    - [undefined] / [null] of an optional value is [None]; the options object
      given to the constructor also tells a property that is absent from one
      that is set to [undefined] or [null], as [Object.assign] does;
    - a function that may throw returns a [completion];
    - the asynchronous calls on the ioredis client are data: an operation
      returns either the arguments it gave its callback, or the command it
      sent together with the handler it registered for the reply;
    - [console.log] and [process.hrtime] (timing output) have no influence on
      any result and are left out. *)

From Stdlib Require Import ZArith List Bool Lia.
From Stdlib Require Import Strings.String Strings.Ascii Strings.Byte.
Import ListNotations.

Open Scope string_scope.
Open Scope Z_scope.

Set Warnings "-register-all".

(** ** JavaScript values *)

(** The values [JSON.parse] returns and [JSON.stringify] accepts. *)
Inductive json : Type :=
| JNull
| JBool (b : bool)
| JNum (n : Z)
| JStr (s : string)
| JArr (items : list json)
| JObj (fields : list (string * json)).

(** An [Error] object, identified by its message. *)
Record error : Type := Error { message : string }.

(** The outcome of a call that may throw. *)
Inductive completion (A : Type) : Type :=
| Normal (a : A)
| Throw (e : error).
Arguments Normal {A} a.
Arguments Throw {A} e.

(** [!!v] for a JSON value. *)
Definition truthy (v : json) : bool :=
  match v with
  | JNull => false
  | JBool b => b
  | JNum n => negb (n =? 0)
  | JStr s => negb (s =? "")%string
  | JArr _ => true
  | JObj _ => true
  end.

(** [!!v] for a value that may be [undefined]. *)
Definition truthy_opt (v : option json) : bool :=
  match v with
  | Some j => truthy j
  | None => false
  end.

(** [!!s] for an optional string setting. *)
Definition truthy_str (s : option string) : bool :=
  match s with
  | Some x => negb (x =? "")%string
  | None => false
  end.

(** [!!n] for an optional number setting. *)
Definition truthy_num (n : option Z) : bool :=
  match n with
  | Some x => negb (x =? 0)
  | None => false
  end.

(** [a || b] on optional numbers. *)
Definition js_or (a b : option Z) : option Z :=
  if truthy_num a then a else b.

(** Lookup of an own property in the fields of an object (the keys of an
    object are distinct). *)
Fixpoint field (name : string) (fields : list (string * json)) : option json :=
  match fields with
  | [] => None
  | (k, v) :: rest => if (k =? name)%string then Some v else field name rest
  end.

(** [v.name] for a truthy JSON value [v]: an own property of an object,
    [undefined] on everything else (neither [item] nor [stored] is a property
    of the prototypes of arrays, strings, numbers or booleans). *)
Definition member (v : json) (name : string) : option json :=
  match v with
  | JObj fields => field name fields
  | _ => None
  end.

(** Structural equality of JSON values, as a boolean. *)
Fixpoint json_eqb (a b : json) : bool :=
  match a, b with
  | JNull, JNull => true
  | JBool x, JBool y => Bool.eqb x y
  | JNum x, JNum y => (x =? y)
  | JStr x, JStr y => (x =? y)%string
  | JArr xs, JArr ys =>
      (fix items_eqb (l r : list json) : bool :=
         match l, r with
         | [], [] => true
         | x :: l', y :: r' => json_eqb x y && items_eqb l' r'
         | _, _ => false
         end) xs ys
  | JObj xs, JObj ys =>
      (fix fields_eqb (l r : list (string * json)) : bool :=
         match l, r with
         | [], [] => true
         | (k, x) :: l', (k', y) :: r' =>
             (k =? k')%string && json_eqb x y && fields_eqb l' r'
         | _, _ => false
         end) xs ys
  | _, _ => false
  end.

(** [s.indexOf(c)] for a one-character search string: the index of the first
    occurrence, [-1] when there is none. *)
Fixpoint indexOf (s : string) (c : ascii) : Z :=
  match s with
  | EmptyString => -1
  | String a rest =>
      if (a =? c)%char then 0
      else let i := indexOf rest c in
           if i =? -1 then -1 else i + 1
  end.

(** [parts.join(sep)]. *)
Definition join (sep : string) (parts : list string) : string :=
  String.concat sep parts.

(** [Buffer.from(s)] and [buf.toString()]. *)
Definition Buffer_from (s : string) : list byte := list_byte_of_string s.
Definition Buffer_toString (b : list byte) : string := string_of_list_byte b.

(** ** The libraries the adapter calls

    [JSON] and the [lz4] codec are used as opaque transforms; each call may
    throw. *)
Class Platform : Type := {
  JSON_stringify : json -> completion string;
  JSON_parse : string -> completion json;
  LZ4_encode : list byte -> completion (list byte);
  LZ4_decode : list byte -> completion (list byte)
}.

(** What the adapter relies on: decoding inverts encoding, parsing inverts
    serializing. *)
Class PlatformLaws (P : Platform) : Prop := {
  LZ4_decode_encode :
    forall b c, LZ4_encode b = Normal c -> LZ4_decode c = Normal b;
  JSON_parse_stringify :
    forall j s, JSON_stringify j = Normal s -> JSON_parse s = Normal j
}.

(** ** The connection object *)

(** The ioredis client, as far as the adapter reads it: its [status]. *)
Record redis_client : Type := { status : string }.

(** A sentinel address. *)
Record sentinel : Type := { sentinel_host : string; sentinel_port : Z }.

(** [this.settings], as the adapter reads it: a property that is absent,
    [undefined] or [null] reads [None]. *)
Record options : Type := {
  host : option string;
  port : option Z;
  url : option string;
  socket : option string;
  sentinels : option (list sentinel);
  sentinelName : option string;
  password : option string;
  database : option Z;
  db : option Z;
  partition : option string;
  opt_client : option redis_client
}.

(** [internals.defaults]: [host] and [port], nothing else. *)
Definition defaults : options :=
  {| host := Some "127.0.0.1"; port := Some 6379;
     url := None; socket := None; sentinels := None; sentinelName := None;
     password := None; database := None; db := None; partition := None;
     opt_client := None |}.

(** A property of the options object the caller gives to the constructor:
    absent, or an own property of the object, whose value may be [undefined]
    or [null] ([Own None]). *)
Inductive property (A : Type) : Type :=
| Absent
| Own (value : option A).
Arguments Absent {A}.
Arguments Own {A} value.

(** The options object given to the constructor. *)
Record given_options : Type := {
  given_host : property string;
  given_port : property Z;
  given_url : property string;
  given_socket : property string;
  given_sentinels : property (list sentinel);
  given_sentinelName : property string;
  given_password : property string;
  given_database : property Z;
  given_db : property Z;
  given_partition : property string;
  given_client : property redis_client
}.

(** [o.name]: what reading a property gives. *)
Definition read {A : Type} (p : property A) : option A :=
  match p with
  | Absent => None
  | Own value => value
  end.

(** One property of [Object.assign({}, a, b)]: every own property of [b] is
    copied over [a]'s, also when its value is [undefined] or [null]; a
    property absent from [b] keeps [a]'s value. *)
Definition assign_prop {A : Type} (a : option A) (b : property A) : option A :=
  match b with
  | Own value => value
  | Absent => a
  end.

(** [Object.assign({}, a, b)], as read afterwards. *)
Definition Object_assign (a : options) (b : given_options) : options :=
  {| host := assign_prop (host a) (given_host b);
     port := assign_prop (port a) (given_port b);
     url := assign_prop (url a) (given_url b);
     socket := assign_prop (socket a) (given_socket b);
     sentinels := assign_prop (sentinels a) (given_sentinels b);
     sentinelName := assign_prop (sentinelName a) (given_sentinelName b);
     password := assign_prop (password a) (given_password b);
     database := assign_prop (database a) (given_database b);
     db := assign_prop (db a) (given_db b);
     partition := assign_prop (partition a) (given_partition b);
     opt_client := assign_prop (opt_client a) (given_client b) |}.

(** The state of a [Connection]: [this.settings] and [this.client]. *)
Record connection : Type := {
  settings : options;
  client : option redis_client
}.

(** [new Connection(options)]: [this.client = options.client || null]. *)
Definition Connection (o : given_options) : connection :=
  {| settings := Object_assign defaults o;
     client := read (given_client o) |}.

(** The options object [{}]. *)
Definition no_options : given_options :=
  {| given_host := Absent; given_port := Absent; given_url := Absent;
     given_socket := Absent; given_sentinels := Absent;
     given_sentinelName := Absent; given_password := Absent;
     given_database := Absent; given_db := Absent; given_partition := Absent;
     given_client := Absent |}.

(** The options object [{partition: p}]. *)
Definition with_partition (p : string) : given_options :=
  {| given_host := Absent; given_port := Absent; given_url := Absent;
     given_socket := Absent; given_sentinels := Absent;
     given_sentinelName := Absent; given_password := Absent;
     given_database := Absent; given_db := Absent;
     given_partition := Own (Some p);
     given_client := Absent |}.

(** What a callback is called with. *)
Inductive callback_args : Type :=
| CbError (e : error)        (* callback(err), err an Error *)
| CbNothing                  (* callback() or callback(null): no error, no result *)
| CbMiss                     (* callback(null, null) *)
| CbEnvelope (envelope : json). (* callback(null, envelope) *)

(** ** start *)

(** The options object [start] builds for [Redis.createClient]. *)
Record client_options : Type := {
  o_password : option string;
  o_db : option Z;
  o_sentinels : option (list sentinel);
  o_name : option string
}.

(** The three shapes of the [Redis.createClient] call. *)
Inductive createClient_call : Type :=
| CreateClient_options (o : client_options)
| CreateClient_path (path : option string) (o : client_options)
| CreateClient_port_host (p : option Z) (h : option string) (o : client_options).

(** [this.settings.sentinels && this.settings.sentinels.length]. *)
Definition has_sentinels (s : options) : bool :=
  match sentinels s with
  | Some (_ :: _) => true
  | _ => false
  end.

(** Lines 43-61: the client options and the topology branch. *)
Definition create_client (s : options) : createClient_call :=
  let o := {| o_password := password s;
              o_db := js_or (database s) (db s);
              o_sentinels := None;
              o_name := None |} in
  if has_sentinels s then
    CreateClient_options
      {| o_password := o_password o; o_db := o_db o;
         o_sentinels := sentinels s; o_name := sentinelName s |}
  else if truthy_str (url s) then
    CreateClient_path (url s) o
  else if truthy_str (socket s) then
    CreateClient_path (socket s) o
  else
    CreateClient_port_host (port s) (host s) o.

(** The options object a [Redis.createClient] call carries. *)
Definition call_options (call : createClient_call) : client_options :=
  match call with
  | CreateClient_options o => o
  | CreateClient_path _ o => o
  | CreateClient_port_host _ _ o => o
  end.

(** A string setting that is not configured: not set, or empty. *)
Definition unset_string (x : option string) : Prop := x = None \/ x = Some "".

(** A sentinel list that is not configured: not set, or empty. *)
Definition unset_sentinels (x : option (list sentinel)) : Prop :=
  x = None \/ x = Some [].

(** What [start] does before it returns. *)
Inductive start_action : Type :=
| StartNextTick                        (* Hoek.nextTick(callback)(): a client was supplied *)
| StartConnect (call : createClient_call). (* a client is created, the listeners registered *)

Definition start (self : connection) : start_action :=
  match client self with
  | Some _ => StartNextTick
  | None => StartConnect (create_client (settings self))
  end.

(** The events the new client emits. *)
Inductive client_event : Type :=
| EvError (err : error)
| EvReady.

(** What the two listeners of [start] read and write. *)
Record start_state : Type := {
  self_client : option redis_client;  (* self.client *)
  once_called : bool;                 (* the flag of Hoek.once(callback) *)
  ready_listener : bool;              (* the once('ready') listener is still registered *)
  callback_log : list callback_args;  (* the calls of start's callback, oldest first *)
  end_calls : nat                     (* the calls of client.end(false) *)
}.

(** The state when [start] returns after [StartConnect]. *)
Definition start_listening : start_state :=
  {| self_client := None; once_called := false; ready_listener := true;
     callback_log := []; end_calls := 0 |}.

(** A call of the function [Hoek.once] returned: the wrapped callback runs the
    first time only. *)
Definition once_call (st : start_state) (args : callback_args) : start_state :=
  if once_called st then st
  else {| self_client := self_client st; once_called := true;
          ready_listener := ready_listener st;
          callback_log := callback_log st ++ [args];
          end_calls := end_calls st |}.

(** The ['error'] listener (lines 65-71). *)
Definition on_error (st : start_state) (err : error) : start_state :=
  match self_client st with
  | None =>
      once_call {| self_client := self_client st; once_called := once_called st;
                   ready_listener := ready_listener st;
                   callback_log := callback_log st;
                   end_calls := S (end_calls st) |} (CbError err)
  | Some _ => st
  end.

(** The ['ready'] listener (lines 75-79), registered with [once]: it is
    removed when it runs. *)
Definition on_ready (c : redis_client) (st : start_state) : start_state :=
  if ready_listener st then
    once_call {| self_client := Some c; once_called := once_called st;
                 ready_listener := false;
                 callback_log := callback_log st;
                 end_calls := end_calls st |} CbNothing
  else st.

Definition on_event (c : redis_client) (st : start_state) (ev : client_event)
  : start_state :=
  match ev with
  | EvError err => on_error st err
  | EvReady => on_ready c st
  end.

(** The state after the client [c] has emitted [evs], in order. *)
Definition run_events (c : redis_client) (evs : list client_event)
  (st : start_state) : start_state :=
  fold_left (on_event c) evs st.

(** ** stop and isReady *)

(** The methods [stop] calls on the client. *)
Inductive client_call : Type :=
| RemoveAllListeners
| Quit.

Definition stop (self : connection) : connection * list client_call :=
  match client self with
  | Some _ =>
      ({| settings := settings self; client := None |},
       [RemoveAllListeners; Quit])
  | None => (self, [])
  end.

Definition isReady (self : connection) : bool :=
  match client self with
  | Some c => (status c =? "ready")%string
  | None => false
  end.

(** [n] calls of [stop] in a row. *)
Fixpoint stop_times (n : nat) (self : connection) : connection :=
  match n with
  | O => self
  | S m => stop_times m (fst (stop self))
  end.

(** ** validateSegmentName *)

(** The null character. *)
Definition nul : ascii := Ascii.zero.

(** [null] is [None]. *)
Definition validateSegmentName (name : string) : option error :=
  if (name =? "")%string then Some (Error "Empty string")
  else if negb (indexOf name nul =? -1) then
    Some (Error "Includes null character")
  else None.

(** ** generateKey *)

Record key : Type := { segment : string; id : string }.

Definition generateKey (self : connection) (k : key) : string :=
  let parts : list string := [] in
  let parts :=
    match partition (settings self) with
    | Some p => if negb (p =? "")%string then (parts ++ [p])%list else parts
    | None => parts
    end in
  let parts := (parts ++ [segment k])%list in
  let parts := (parts ++ [id k])%list in
  join ":" parts.

(** ** get, set and drop *)

(** The commands sent to the client. *)
Inductive command : Type :=
| GetBuffer (k : string)
| Psetex (k : string) (ttl : Z) (payload : list byte)
| Del (k : string).

(** What the client passes to the handler of a command: [(err, result)]. *)
Record reply : Type := {
  reply_err : option error;
  reply_result : option (list byte)
}.

(** What an operation has done when it returns. *)
Inductive operation : Type :=
| Completed (args : callback_args)
    (* the callback was called, nothing was sent *)
| Issued (cmd : command) (handler : reply -> option callback_args).
    (* a command was sent; [handler r] is what the registered handler passes to
       the callback on the reply [r], [None] when it does not call it *)

Definition not_started : error := Error "Connection not started".

(** Lines 146-156: the checks on [envelope]. *)
Definition check_envelope (envelope : json) : callback_args :=
  if negb (truthy envelope) then CbError (Error "Bad envelope content")
  else if negb (truthy_opt (member envelope "item"))
          || negb (truthy_opt (member envelope "stored")) then
    CbError (Error "Incorrect envelope structure")
  else CbEnvelope envelope.

Section Operations.

Context {P : Platform}.

(** Lines 129-144: [envelope] after the [try] block, [null] when a call threw. *)
Definition decode_envelope (result : list byte) : json :=
  match LZ4_decode result with
  | Normal uncompressedResult =>
      match JSON_parse (Buffer_toString uncompressedResult) with
      | Normal envelope => envelope
      | Throw _ => JNull
      end
  | Throw _ => JNull
  end.

(** The handler [get] gives [getBuffer] (lines 119-157). *)
Definition get_handler (r : reply) : callback_args :=
  match reply_err r with
  | Some err => CbError err
  | None =>
      match reply_result r with
      | None => CbMiss
      | Some result => check_envelope (decode_envelope result)
      end
  end.

Definition get (self : connection) (k : key) : operation :=
  match client self with
  | None => Completed (CbError not_started)
  | Some _ =>
      Issued (GetBuffer (generateKey self k)) (fun r => Some (get_handler r))
  end.

(** The handler [set] gives [psetex] (lines 197-201). *)
Definition set_handler (r : reply) : option callback_args :=
  match reply_err r with
  | Some err => Some (CbError err)
  | None => None
  end.

(** [now] is the value of [Date.now()]. *)
Definition set (self : connection) (k : key) (value : json) (ttl : Z) (now : Z)
  : operation :=
  match client self with
  | None => Completed (CbError not_started)
  | Some _ =>
      let envelope :=
        JObj [("item", value); ("stored", JNum now); ("ttl", JNum ttl)] in
      let cacheKey := generateKey self k in
      match JSON_stringify envelope with
      | Throw err => Completed (CbError err)
      | Normal stringifiedEnvelope =>
          let uncompressedBuffer := Buffer_from stringifiedEnvelope in
          match LZ4_encode uncompressedBuffer with
          | Throw err => Completed (CbError err)
          | Normal compressedEnvelope =>
              Issued (Psetex cacheKey ttl compressedEnvelope) set_handler
          end
      end
  end.

(** The handler [drop] gives [del] (lines 211-214). *)
Definition drop_handler (r : reply) : callback_args :=
  match reply_err r with
  | Some err => CbError err
  | None => CbNothing
  end.

Definition drop (self : connection) (k : key) : operation :=
  match client self with
  | None => Completed (CbError not_started)
  | Some _ => Issued (Del (generateKey self k)) (fun r => Some (drop_handler r))
  end.

(** A call of the interface on a connection: [now] is the value of
    [Date.now()] during a [set]. *)
Inductive api_call : Type :=
| CallGet (k : key)
| CallSet (k : key) (value : json) (ttl now : Z)
| CallDrop (k : key)
| CallStop.

(** One call: the connection after it, and what the operation did ([get],
    [set] and [drop] read [this.client] and [this.settings] and write
    neither). *)
Definition perform (self : connection) (call : api_call)
  : connection * option operation :=
  match call with
  | CallGet k => (self, Some (get self k))
  | CallSet k value ttl now => (self, Some (set self k value ttl now))
  | CallDrop k => (self, Some (drop self k))
  | CallStop => (fst (stop self), None)
  end.

(** The operations of a sequence of calls, in order. *)
Fixpoint perform_all (self : connection) (calls : list api_call)
  : list operation :=
  match calls with
  | [] => []
  | call :: rest =>
      match perform self call with
      | (self', Some op) => op :: perform_all self' rest
      | (self', None) => perform_all self' rest
      end
  end.

End Operations.

(** The command an operation sent, if any. *)
Definition sent (op : operation) : option command :=
  match op with
  | Completed _ => None
  | Issued cmd _ => Some cmd
  end.

(** What the callback of an operation is called with once the client has
    answered [r]; [None] when it is not called. *)
Definition outcome (op : operation) (r : reply) : option callback_args :=
  match op with
  | Completed args => Some args
  | Issued _ handler => handler r
  end.

(** The reply of a command that succeeded without a result. *)
Definition reply_ok : reply := {| reply_err := None; reply_result := None |}.

(** The reply of a [getBuffer] that found [b]. *)
Definition reply_bytes (b : list byte) : reply :=
  {| reply_err := None; reply_result := Some b |}.

(** ** A sample platform and sample inputs

    A small instance of the two libraries, to run the adapter on concrete
    inputs: [JSON] knows the texts of the values of [sample_texts], as
    [JSON.stringify] prints them, and throws on everything else; the codec
    stores its input uncompressed behind the magic number of an LZ4 frame. *)

(** The double quote. *)
Definition dquote : string := String (ascii_of_nat 34) EmptyString.

Definition quoted (s : string) : string := dquote ++ s ++ dquote.

(** [{item: {name: "Ann"}, stored: 1000, ttl: 5000}]. *)
Definition envelope_ann : json :=
  JObj [("item", JObj [("name", JStr "Ann")]);
        ("stored", JNum 1000); ("ttl", JNum 5000)].

(** [{item: 0, stored: 1000, ttl: 5000}]. *)
Definition envelope_zero : json :=
  JObj [("item", JNum 0); ("stored", JNum 1000); ("ttl", JNum 5000)].

(** [{stored: 1000, ttl: 5000}]: no [item]. *)
Definition envelope_no_item : json :=
  JObj [("stored", JNum 1000); ("ttl", JNum 5000)].

Definition text_ann : string :=
  "{" ++ quoted "item" ++ ":{" ++ quoted "name" ++ ":" ++ quoted "Ann" ++ "},"
      ++ quoted "stored" ++ ":1000," ++ quoted "ttl" ++ ":5000}".

Definition text_zero : string :=
  "{" ++ quoted "item" ++ ":0,"
      ++ quoted "stored" ++ ":1000," ++ quoted "ttl" ++ ":5000}".

Definition text_no_item : string :=
  "{" ++ quoted "stored" ++ ":1000," ++ quoted "ttl" ++ ":5000}".

Definition sample_texts : list (json * string) :=
  [(envelope_ann, text_ann);
   (envelope_zero, text_zero);
   (envelope_no_item, text_no_item)].

Definition sample_stringify (j : json) : completion string :=
  match find (fun e => json_eqb j (fst e)) sample_texts with
  | Some e => Normal (snd e)
  | None => Throw (Error "Not a sample value")
  end.

Definition sample_parse (s : string) : completion json :=
  match find (fun e => (s =? snd e)%string) sample_texts with
  | Some e => Normal (fst e)
  | None => Throw (Error "Unexpected token")
  end.

(** The magic number of an LZ4 frame, [0x184D2204] in little endian. *)
Definition lz4_magic : list byte := [x04; x22; x4d; x18].

Definition sample_encode (b : list byte) : completion (list byte) :=
  Normal (lz4_magic ++ b)%list.

Definition sample_decode (c : list byte) : completion (list byte) :=
  match c with
  | x04 :: x22 :: x4d :: x18 :: b => Normal b
  | _ => Throw (Error "Invalid magic number")
  end.

Definition sample_platform : Platform :=
  {| JSON_stringify := sample_stringify;
     JSON_parse := sample_parse;
     LZ4_encode := sample_encode;
     LZ4_decode := sample_decode |}.

(** A connection with a ready client and the default settings. *)
Definition sample_client : redis_client := {| status := "ready" |}.

Definition sample_connection : connection :=
  {| settings := defaults; client := Some sample_client |}.

(** Constructor options that set a url, a socket path, an empty sentinel
    list, a password and both database properties. *)
Definition sample_options : given_options :=
  {| given_host := Absent; given_port := Absent;
     given_url := Own (Some "redis://cache:6380");
     given_socket := Own (Some "/tmp/redis.sock");
     given_sentinels := Own (Some []);
     given_sentinelName := Absent;
     given_password := Own (Some "secret");
     given_database := Own (Some 0); given_db := Own (Some 3);
     given_partition := Absent; given_client := Absent |}.

(** The logical key [{segment: "users", id: "1"}]. *)
Definition users_1 : key := {| segment := "users"; id := "1" |}.

(** The bytes the sample platform stores for a text. *)
Definition sample_payload (text : string) : list byte :=
  (lz4_magic ++ Buffer_from text)%list.

(** ** The life cycle: the listeners of start together with stop *)

(** The adapter while the client that [start] created lives: the settings,
    what the listeners read and write, whether the listeners are still on the
    client, and the calls [stop] has made on it. No client was supplied, so a
    recorded client is the one [start] created. *)
Record lifecycle : Type := {
  lc_settings : options;          (* this.settings *)
  lc_start : start_state;         (* this.client, the callback, the listeners' state *)
  lc_listening : bool;            (* removeAllListeners() has not been called *)
  lc_calls : list client_call     (* the calls of stop on the client, oldest first *)
}.

(** What happens to the adapter: the client emits an event, or [stop] is
    called. *)
Inductive lifecycle_step : Type :=
| LcEvent (ev : client_event)
| LcStop.

(** The state when [start] returns after [StartConnect]. *)
Definition lifecycle_begin (s : options) : lifecycle :=
  {| lc_settings := s; lc_start := start_listening;
     lc_listening := true; lc_calls := [] |}.

(** The connection object ([this]) of a life cycle state. *)
Definition lifecycle_connection (lc : lifecycle) : connection :=
  {| settings := lc_settings lc; client := self_client (lc_start lc) |}.

(** [removeAllListeners()] is among the calls. *)
Definition removes_listeners (calls : list client_call) : bool :=
  existsb (fun call => match call with
                       | RemoveAllListeners => true
                       | Quit => false
                       end) calls.

(** [stop] on the connection of the state: [removeAllListeners()] takes the
    two listeners of [start] off the client. *)
Definition lifecycle_stop (lc : lifecycle) : lifecycle :=
  let r := stop (lifecycle_connection lc) in
  let removed := removes_listeners (snd r) in
  {| lc_settings := settings (fst r);
     lc_start :=
       {| self_client := client (fst r);
          once_called := once_called (lc_start lc);
          ready_listener := ready_listener (lc_start lc) && negb removed;
          callback_log := callback_log (lc_start lc);
          end_calls := end_calls (lc_start lc) |};
     lc_listening := lc_listening lc && negb removed;
     lc_calls := (lc_calls lc ++ snd r)%list |}.

(** An event of the client [c] reaches the listeners while they are on it. *)
Definition lifecycle_event (c : redis_client) (lc : lifecycle)
  (ev : client_event) : lifecycle :=
  if lc_listening lc then
    {| lc_settings := lc_settings lc;
       lc_start := on_event c (lc_start lc) ev;
       lc_listening := lc_listening lc;
       lc_calls := lc_calls lc |}
  else lc.

Definition lifecycle_do (c : redis_client) (lc : lifecycle)
  (step : lifecycle_step) : lifecycle :=
  match step with
  | LcEvent ev => lifecycle_event c lc ev
  | LcStop => lifecycle_stop lc
  end.

(** The state after the steps, in order. *)
Definition run_lifecycle (c : redis_client) (steps : list lifecycle_step)
  (lc : lifecycle) : lifecycle :=
  fold_left (lifecycle_do c) steps lc.

(** A step of a session: the client emits an event, or the interface is
    called ([stop] included). *)
Inductive session_step : Type :=
| SsEvent (ev : client_event)
| SsCall (call : api_call).

(** One step: the state after it and, for [get], [set] and [drop], what the
    operation did on the connection of the state. *)
Definition session_do {P : Platform} (c : redis_client) (lc : lifecycle)
  (step : session_step) : lifecycle * option operation :=
  match step with
  | SsEvent ev => (lifecycle_event c lc ev, None)
  | SsCall CallStop => (lifecycle_stop lc, None)
  | SsCall call => (lc, snd (perform (lifecycle_connection lc) call))
  end.

(** The operations of a session, in order. *)
Fixpoint run_session {P : Platform} (c : redis_client)
  (steps : list session_step) (lc : lifecycle) : list operation :=
  match steps with
  | [] => []
  | step :: rest =>
      match session_do c lc step with
      | (lc', Some op) => op :: run_session c rest lc'
      | (lc', None) => run_session c rest lc'
      end
  end.

(** What every state reached from [lifecycle_begin] satisfies: the callback
    ran at most once, and either the listeners are on and [stop] has called
    nothing, or [stop] has run once and cleared the client. *)
Definition lifecycle_invariant (lc : lifecycle) : Prop :=
  (List.length (callback_log (lc_start lc))
   <= if once_called (lc_start lc) then 1 else 0)%nat /\
  ((lc_listening lc = true /\ lc_calls lc = []) \/
   (lc_listening lc = false /\ self_client (lc_start lc) = None /\
    lc_calls lc = [RemoveAllListeners; Quit])).

(** ** Notions used in the statements *)

(** The number of error events before the first ready event. *)
Fixpoint errors_before_ready (evs : list client_event) : nat :=
  match evs with
  | EvError _ :: rest => S (errors_before_ready rest)
  | _ => O
  end.

(** The string holds no [:], the separator of [generateKey]. *)
Definition colon_free (s : string) : Prop :=
  ~ In ":"%char (list_ascii_of_string s).

(** A connection constructed with the partition [tenant]. *)
Definition tenant_connection : connection :=
  Connection (with_partition "tenant").

(** Constructor options that supply a client. *)
Definition supplied_options : given_options :=
  {| given_host := Absent; given_port := Absent; given_url := Absent;
     given_socket := Absent; given_sentinels := Absent;
     given_sentinelName := Absent; given_password := Absent;
     given_database := Absent; given_db := Absent; given_partition := Absent;
     given_client := Own (Some sample_client) |}.

(** The sample platform with a parser that also knows the texts [42] and
    [null]. *)
Definition scalar_platform : Platform :=
  {| JSON_stringify := sample_stringify;
     JSON_parse := fun s =>
       if (s =? "42")%string then Normal (JNum 42)
       else if (s =? "null")%string then Normal JNull
       else sample_parse s;
     LZ4_encode := sample_encode;
     LZ4_decode := sample_decode |}.

(** The store key a command addresses. *)
Definition command_key (cmd : command) : string :=
  match cmd with
  | GetBuffer k => k
  | Psetex k _ _ => k
  | Del k => k
  end.

(** The sample platform with a codec whose encoder always throws. *)
Definition failing_encoder_platform : Platform :=
  {| JSON_stringify := sample_stringify;
     JSON_parse := sample_parse;
     LZ4_encode := fun _ => Throw (Error "Encoding failed");
     LZ4_decode := sample_decode |}.

(** * Properties *)

(** ** Strings *)

Lemma length_append (a b : string) :
  String.length (a ++ b) = (String.length a + String.length b)%nat.
Proof.
  induction a as [|c a IH]; simpl; [reflexivity | now rewrite IH].
Qed.

Lemma append_cancel_l (p x y : string) : p ++ x = p ++ y -> x = y.
Proof.
  induction p as [|c p IH]; simpl; intros H; [exact H|].
  injection H as H. now apply IH.
Qed.

Lemma append_cancel_r (a b s : string) : a ++ s = b ++ s -> a = b.
Proof.
  revert b; induction a as [|c a IH]; intros [|d b] H; simpl in H.
  - reflexivity.
  - apply (f_equal String.length) in H. simpl in H.
    rewrite length_append in H. lia.
  - apply (f_equal String.length) in H. simpl in H.
    rewrite length_append in H. lia.
  - injection H as Hc H. subst d. f_equal. now apply IH.
Qed.

Lemma indexOf_lower_bound (s : string) (c : ascii) : -1 <= indexOf s c.
Proof.
  induction s as [|a s IH]; simpl; [lia|].
  destruct (a =? c)%char; [lia|].
  destruct (indexOf s c =? -1) eqn:E; lia.
Qed.

Lemma indexOf_absent (s : string) (c : ascii) :
  indexOf s c = -1 <-> ~ In c (list_ascii_of_string s).
Proof.
  induction s as [|a s IH]; simpl.
  - split; [intros _ [] | reflexivity].
  - destruct (Ascii.eqb_spec a c) as [->|Hne].
    + split; [discriminate | intros H; exfalso; apply H; now left].
    + pose proof (indexOf_lower_bound s c) as Hlb.
      destruct (indexOf s c =? -1) eqn:E.
      * apply Z.eqb_eq in E. split; [|reflexivity].
        intros _ [Heq | Hin]; [now apply Hne | now apply IH in E].
      * apply Z.eqb_neq in E. split; [lia|].
        intros H. exfalso. apply E, IH. intros Hin. apply H. now right.
Qed.

(** ** JSON values *)

Lemma json_eqb_sound : forall a b : json, json_eqb a b = true -> a = b.
Proof.
  fix IH 1. intros a b. destruct a as [|x|x|x|xs|xs], b as [|y|y|y|ys|ys];
    simpl; try discriminate.
  - reflexivity.
  - intros H. apply Bool.eqb_prop in H. now subst.
  - intros H. apply Z.eqb_eq in H. now subst.
  - intros H. apply String.eqb_eq in H. now subst.
  - revert ys. induction xs as [|x xs IHxs]; intros [|y ys] H;
      try discriminate; [reflexivity|].
    apply andb_true_iff in H as [H1 H2].
    apply IH in H1. apply IHxs in H2. injection H2 as H2. now subst.
  - revert ys. induction xs as [|[k x] xs IHxs]; intros [|[k' y] ys] H;
      try discriminate; [reflexivity|].
    apply andb_true_iff in H as [H1 H2].
    apply andb_true_iff in H1 as [Hk H1].
    apply String.eqb_eq in Hk. apply IH in H1. apply IHxs in H2.
    injection H2 as H2. now subst.
Qed.

(** ** The sample platform is lawful *)

Lemma sample_platform_laws : PlatformLaws sample_platform.
Proof.
  split; simpl.
  - intros b c H. unfold sample_encode in H. injection H as <-. reflexivity.
  - intros j s. unfold sample_stringify, sample_texts. simpl.
    destruct (json_eqb j envelope_ann) eqn:E1.
    { apply json_eqb_sound in E1. subst j. intros [= <-]. reflexivity. }
    destruct (json_eqb j envelope_zero) eqn:E2.
    { apply json_eqb_sound in E2. subst j. intros [= <-]. reflexivity. }
    destruct (json_eqb j envelope_no_item) eqn:E3.
    { apply json_eqb_sound in E3. subst j. intros [= <-]. reflexivity. }
    discriminate.
Qed.

(** ** validateSegmentName *)

(** C10: [validateSegmentName] returns [null] exactly for the non-empty names
    without a null character; it returns the error [Empty string] for the
    empty name and [Includes null character] for a name with a null
    character. It is a total function: it never throws. *)
Theorem validateSegmentName_spec (name : string) :
  (validateSegmentName name = None <->
     name <> "" /\ ~ In nul (list_ascii_of_string name)) /\
  (name = "" -> validateSegmentName name = Some (Error "Empty string")) /\
  (In nul (list_ascii_of_string name) ->
     validateSegmentName name = Some (Error "Includes null character")).
Proof.
  unfold validateSegmentName.
  destruct (String.eqb_spec name "") as [->|Hne].
  - split; [|split].
    + split; [discriminate | intros [H _]; now elim H].
    + reflexivity.
    + intros [].
  - destruct (indexOf name nul =? -1) eqn:E; simpl.
    + apply Z.eqb_eq, indexOf_absent in E.
      split; [|split]; [tauto | intros; contradiction | intros; contradiction].
    + apply Z.eqb_neq in E. rewrite indexOf_absent in E.
      split; [|split].
      * split; [discriminate | intros [_ H]; contradiction].
      * intros; contradiction.
      * reflexivity.
Qed.

Lemma validateSegmentName_spec_witness :
  In nul (list_ascii_of_string (String nul "a")) /\
  validateSegmentName (String nul "a") = Some (Error "Includes null character").
Proof.
  split.
  - left; reflexivity.
  - apply (proj2 (proj2 (validateSegmentName_spec (String nul "a")))).
    left; reflexivity.
Defined.

(** ** generateKey *)

Lemma generateKey_partitioned (self : connection) (p : string) (k : key) :
  partition (settings self) = Some p -> p <> "" ->
  generateKey self k = p ++ ":" ++ segment k ++ ":" ++ id k.
Proof.
  intros Hp Hne. unfold generateKey, join. rewrite Hp.
  destruct (String.eqb_spec p "") as [->|_]; [now elim Hne | reflexivity].
Qed.

Lemma generateKey_unpartitioned (self : connection) (k : key) :
  truthy_str (partition (settings self)) = false ->
  generateKey self k = segment k ++ ":" ++ id k.
Proof.
  intros Hp. unfold generateKey, join, truthy_str in *.
  destruct (partition (settings self)) as [p|]; [|reflexivity].
  now rewrite Hp.
Qed.

(** C7: the store key is a function of the partition setting, the segment and
    the id alone; two distinct non-empty partitions give distinct store keys
    for the same logical key; and the logical keys [{segment: "a", id: "1"}]
    and [{segment: "a1", id: ""}] have distinct store keys under every
    partition setting. *)
Theorem generateKey_deterministic :
  (forall (self1 self2 : connection) (k1 k2 : key),
      partition (settings self1) = partition (settings self2) ->
      segment k1 = segment k2 -> id k1 = id k2 ->
      generateKey self1 k1 = generateKey self2 k2) /\
  (forall (self1 self2 : connection) (p1 p2 : string) (k : key),
      partition (settings self1) = Some p1 ->
      partition (settings self2) = Some p2 ->
      p1 <> "" -> p2 <> "" -> p1 <> p2 ->
      generateKey self1 k <> generateKey self2 k) /\
  (forall self : connection,
      generateKey self {| segment := "a"; id := "1" |} <>
      generateKey self {| segment := "a1"; id := "" |}).
Proof.
  split; [|split].
  - intros self1 self2 k1 k2 Hp Hs Hi. unfold generateKey.
    now rewrite Hp, Hs, Hi.
  - intros self1 self2 p1 p2 k H1 H2 Hn1 Hn2 Hne Heq.
    rewrite (generateKey_partitioned self1 p1 k H1 Hn1) in Heq.
    rewrite (generateKey_partitioned self2 p2 k H2 Hn2) in Heq.
    now apply append_cancel_r in Heq.
  - intros self Heq.
    destruct (truthy_str (partition (settings self))) eqn:Hp.
    + unfold truthy_str in Hp.
      destruct (partition (settings self)) as [p|] eqn:Ep; [|discriminate].
      assert (Hne : p <> "").
      { intros ->. discriminate. }
      rewrite !(generateKey_partitioned self p _ Ep Hne) in Heq.
      apply append_cancel_l in Heq. discriminate.
    + rewrite !generateKey_unpartitioned in Heq by exact Hp. discriminate.
Qed.

Lemma generateKey_deterministic_witness :
  generateKey (Connection (with_partition "p")) users_1 <>
  generateKey (Connection (with_partition "q")) users_1.
Proof.
  apply (proj1 (proj2 generateKey_deterministic) _ _ "p" "q" users_1);
    [reflexivity | reflexivity | discriminate | discriminate | discriminate].
Defined.

(** ** start: the topology of the new client *)

Lemma unset_string_false (x : option string) :
  unset_string x -> truthy_str x = false.
Proof.
  now intros [-> | ->].
Qed.

Lemma set_string_true (x : string) : x <> "" -> truthy_str (Some x) = true.
Proof.
  intros H. simpl. now destruct (String.eqb_spec x "").
Qed.

(** C8: for a connection constructed without a client, [start] makes one
    [Redis.createClient] call, chosen by precedence: the sentinels with the
    sentinel name when the sentinel list is not empty, else the url, else the
    socket path, else port and host, which are 6379 and 127.0.0.1 when the
    options given to the constructor have no [port] and no [host] property
    (a property the options do have is passed as it is); the options of the
    call carry the password and the database index ([database] when it is
    not zero, else [db]) in every case. *)
Theorem start_topology (o : given_options) :
  read (given_client o) = None ->
  let o' := {| o_password := read (given_password o);
               o_db := js_or (read (given_database o)) (read (given_db o));
               o_sentinels := None; o_name := None |} in
  (exists call, start (Connection o) = StartConnect call /\
                o_password (call_options call) = read (given_password o) /\
                (forall n, read (given_database o) = Some n -> n <> 0 ->
                           o_db (call_options call) = Some n) /\
                (read (given_database o) = None \/
                 read (given_database o) = Some 0 ->
                 o_db (call_options call) = read (given_db o))) /\
  (forall l, read (given_sentinels o) = Some l -> l <> [] ->
     start (Connection o) =
     StartConnect
       (CreateClient_options
          {| o_password := o_password o'; o_db := o_db o';
             o_sentinels := Some l;
             o_name := read (given_sentinelName o) |})) /\
  (forall u, unset_sentinels (read (given_sentinels o)) ->
     read (given_url o) = Some u -> u <> "" ->
     start (Connection o) = StartConnect (CreateClient_path (Some u) o')) /\
  (forall p, unset_sentinels (read (given_sentinels o)) ->
     unset_string (read (given_url o)) ->
     read (given_socket o) = Some p -> p <> "" ->
     start (Connection o) = StartConnect (CreateClient_path (Some p) o')) /\
  (unset_sentinels (read (given_sentinels o)) ->
   unset_string (read (given_url o)) ->
   unset_string (read (given_socket o)) ->
     exists p h,
       start (Connection o) = StartConnect (CreateClient_port_host p h o') /\
       (given_port o = Absent -> p = Some 6379) /\
       (forall v, given_port o = Own v -> p = v) /\
       (given_host o = Absent -> h = Some "127.0.0.1") /\
       (forall v, given_host o = Own v -> h = v)).
Proof.
  intros Hc. cbv zeta.
  assert (Hsen : sentinels (settings (Connection o)) = read (given_sentinels o))
    by (simpl; now destruct (given_sentinels o)).
  assert (Hurl : url (settings (Connection o)) = read (given_url o))
    by (simpl; now destruct (given_url o)).
  assert (Hsock : socket (settings (Connection o)) = read (given_socket o))
    by (simpl; now destruct (given_socket o)).
  assert (Hname : sentinelName (settings (Connection o))
                  = read (given_sentinelName o))
    by (simpl; now destruct (given_sentinelName o)).
  assert (Hpw : password (settings (Connection o)) = read (given_password o))
    by (simpl; now destruct (given_password o)).
  assert (Hdat : database (settings (Connection o)) = read (given_database o))
    by (simpl; now destruct (given_database o)).
  assert (Hdb : db (settings (Connection o)) = read (given_db o))
    by (simpl; now destruct (given_db o)).
  assert (Hstart : start (Connection o)
                   = StartConnect (create_client (settings (Connection o)))).
  { unfold start. simpl. now rewrite Hc. }
  rewrite Hstart. unfold create_client, has_sentinels.
  rewrite Hsen, Hurl, Hsock, Hname, Hpw, Hdat, Hdb.
  split; [|split; [|split; [|split]]].
  - eexists. split; [reflexivity|].
    destruct (read (given_sentinels o)) as [[|x l]|];
      destruct (truthy_str (read (given_url o)));
      destruct (truthy_str (read (given_socket o))); simpl;
      (split; [reflexivity|]); unfold js_or;
      (split;
       [ intros n Hn Hne; rewrite Hn; simpl;
         apply Z.eqb_neq in Hne; now rewrite Hne
       | intros [Hn | Hn]; rewrite Hn; reflexivity ]).
  - intros l Hs Hl. rewrite Hs.
    destruct l as [|x l]; [now elim Hl | reflexivity].
  - intros u [Hs | Hs] Hu Hne; rewrite Hs, Hu;
      now rewrite (set_string_true u Hne).
  - intros p [Hs | Hs] Hu Hp Hne;
      rewrite Hs, (unset_string_false _ Hu), Hp;
      now rewrite (set_string_true p Hne).
  - intros Hs Hu Hp.
    exists (port (settings (Connection o))), (host (settings (Connection o))).
    split.
    + destruct Hs as [Hs | Hs]; rewrite Hs;
        now rewrite (unset_string_false _ Hu), (unset_string_false _ Hp).
    + simpl. repeat split.
      * now intros ->.
      * now intros v ->.
      * now intros ->.
      * now intros v ->.
Qed.

Lemma start_topology_witness :
  read (given_client no_options) = None /\
  unset_sentinels (read (given_sentinels no_options)) /\
  unset_string (read (given_url no_options)) /\
  unset_string (read (given_socket no_options)) /\
  exists p h,
    start (Connection no_options)
    = StartConnect
        (CreateClient_port_host p h
           {| o_password := None; o_db := None;
              o_sentinels := None; o_name := None |}) /\
    p = Some 6379 /\ h = Some "127.0.0.1".
Proof.
  assert (Hs : unset_sentinels (read (given_sentinels no_options)))
    by (left; reflexivity).
  assert (Hu : unset_string (read (given_url no_options)))
    by (left; reflexivity).
  assert (Hp : unset_string (read (given_socket no_options)))
    by (left; reflexivity).
  split; [reflexivity|]. split; [exact Hs|]. split; [exact Hu|].
  split; [exact Hp|].
  destruct (proj2 (proj2 (proj2 (proj2
              (start_topology no_options eq_refl)))) Hs Hu Hp)
    as (p & h & Hstart & Hport & _ & Hhost & _).
  exists p, h. split; [exact Hstart|].
  split; [exact (Hport eq_refl) | exact (Hhost eq_refl)].
Defined.

(** ** start: the completion callback *)

(** Once the wrapped callback has run, no event calls it again. *)
Lemma on_event_completed (c : redis_client) (st : start_state)
  (ev : client_event) :
  once_called st = true ->
  once_called (on_event c st ev) = true /\
  callback_log (on_event c st ev) = callback_log st.
Proof.
  intros H. destruct ev as [err|]; simpl.
  - unfold on_error. destruct (self_client st); [now split|].
    unfold once_call. simpl. rewrite H. now split.
  - unfold on_ready. destruct (ready_listener st); [|now split].
    unfold once_call. simpl. rewrite H. now split.
Qed.

Lemma run_events_completed (c : redis_client) (evs : list client_event) :
  forall st, once_called st = true ->
             callback_log (run_events c evs st) = callback_log st.
Proof.
  unfold run_events.
  induction evs as [|ev evs IH]; intros st H; simpl; [reflexivity|].
  destruct (on_event_completed c st ev H) as [H1 H2].
  now rewrite IH, H2.
Qed.

(** An event that runs the wrapped callback for the first time adds one call
    to the log; every other event adds none. *)
Lemma on_event_log (c : redis_client) (st : start_state) (ev : client_event) :
  once_called st = false ->
  (once_called (on_event c st ev) = false /\
   callback_log (on_event c st ev) = callback_log st) \/
  (once_called (on_event c st ev) = true /\
   exists args, callback_log (on_event c st ev) = (callback_log st ++ [args])%list).
Proof.
  intros H. destruct ev as [err|]; simpl.
  - unfold on_error. destruct (self_client st); [left; now split|].
    right. unfold once_call. simpl. rewrite H. simpl. split; [reflexivity|].
    now exists (CbError err).
  - unfold on_ready. destruct (ready_listener st); [|left; now split].
    right. unfold once_call. simpl. rewrite H. simpl. split; [reflexivity|].
    now exists CbNothing.
Qed.

Lemma run_events_log (c : redis_client) (evs : list client_event) :
  forall st, once_called st = false ->
             (List.length (callback_log (run_events c evs st))
              <= S (List.length (callback_log st)))%nat.
Proof.
  unfold run_events.
  induction evs as [|ev evs IH]; intros st H; simpl; [lia|].
  destruct (on_event_log c st ev H) as [[H1 H2] | [H1 [args H2]]].
  - specialize (IH _ H1). rewrite H2 in IH. exact IH.
  - pose proof (run_events_completed c evs _ H1) as Hlog.
    unfold run_events in Hlog. rewrite Hlog, H2, length_app. simpl. lia.
Qed.

(** C2: whatever ['error'] and ['ready'] events the new client emits after
    [start] has registered its listeners, the callback of [start] is called at
    most once; when the first event is an error (no ready event has recorded
    the client yet), it is called exactly once, with that error, and no later
    event calls it again. *)
Theorem start_callback_at_most_once (c : redis_client)
  (evs : list client_event) (err : error) :
  (List.length (callback_log (run_events c evs start_listening)) <= 1)%nat /\
  callback_log (run_events c (EvError err :: evs) start_listening)
  = [CbError err].
Proof.
  split.
  - apply (run_events_log c evs start_listening). reflexivity.
  - unfold run_events. simpl.
    apply (run_events_completed c evs). reflexivity.
Qed.

(** ** stop *)

Lemma stop_clears (self : connection) : client (fst (stop self)) = None.
Proof.
  unfold stop. destruct (client self) eqn:E; simpl; [reflexivity | exact E].
Qed.

Lemma stop_times_clears (n : nat) :
  forall self, client (stop_times (S n) self) = None.
Proof.
  induction n as [|n IH]; intros self.
  - simpl. apply stop_clears.
  - change (client (stop_times (S n) (fst (stop self))) = None). apply IH.
Qed.

Lemma perform_all_not_started (P : Platform) (calls : list api_call) :
  forall self, client self = None ->
    Forall (fun op => op = Completed (CbError not_started))
      (perform_all self calls).
Proof.
  induction calls as [|call calls IH]; intros self H; simpl; [constructor|].
  destruct call as [k | k value ttl now | k |]; simpl.
  - constructor; [unfold get; now rewrite H | now apply IH].
  - constructor; [unfold set; now rewrite H | now apply IH].
  - constructor; [unfold drop; now rewrite H | now apply IH].
  - apply IH, stop_clears.
Qed.

(** C9: [stop] is a total function (it raises nothing, with or without an
    active connection); after one or more calls in a row the client is cleared
    and [isReady()] is false; a second call changes nothing and calls no
    method of the client; and [stop] on a connection without a client does
    nothing. *)
Theorem stop_idempotent (self : connection) (n : nat) :
  client (stop_times (S n) self) = None /\
  isReady (stop_times (S n) self) = false /\
  stop (fst (stop self)) = (fst (stop self), []) /\
  stop {| settings := settings self; client := None |}
  = ({| settings := settings self; client := None |}, []).
Proof.
  pose proof (stop_times_clears n self) as H.
  split; [exact H|]. split; [|split].
  - unfold isReady. now rewrite H.
  - pose proof (stop_clears self) as Hc. unfold stop at 1. now rewrite Hc.
  - reflexivity.
Qed.

(** ** The envelope: set then get *)

Lemma Buffer_toString_from (s : string) : Buffer_toString (Buffer_from s) = s.
Proof.
  unfold Buffer_toString, Buffer_from. apply string_of_list_byte_of_string.
Qed.

(** On a lawful platform the [try] block of [get] recovers the envelope that
    [set] serialized and compressed. *)
Lemma decode_envelope_encoded (P : Platform) (L : PlatformLaws P)
  (envelope : json) (text : string) (payload : list byte) :
  JSON_stringify envelope = Normal text ->
  LZ4_encode (Buffer_from text) = Normal payload ->
  decode_envelope payload = envelope.
Proof.
  intros Hs He. unfold decode_envelope.
  rewrite (LZ4_decode_encode _ _ He), Buffer_toString_from.
  now rewrite (JSON_parse_stringify _ _ Hs).
Qed.

Lemma check_envelope_accepts (envelope : json) :
  check_envelope envelope = CbEnvelope envelope <->
  truthy envelope = true /\
  truthy_opt (member envelope "item") = true /\
  truthy_opt (member envelope "stored") = true.
Proof.
  unfold check_envelope.
  destruct (truthy envelope); simpl.
  - destruct (truthy_opt (member envelope "item")); simpl.
    + destruct (truthy_opt (member envelope "stored")); simpl.
      * tauto.
      * split; [discriminate | intros (_ & _ & H); discriminate].
    + split; [discriminate | intros (_ & H & _); discriminate].
  - split; [discriminate | intros (H & _); discriminate].
Qed.

Lemma check_envelope_not_miss (envelope : json) :
  check_envelope envelope <> CbMiss.
Proof.
  unfold check_envelope.
  destruct (truthy envelope); simpl; [|discriminate].
  destruct (negb (truthy_opt (member envelope "item"))
            || negb (truthy_opt (member envelope "stored"))); discriminate.
Qed.

(** C1, in the code: the round trip fails for a falsy item. For
    [set({segment: "users", id: "1"}, 0, 5000, cb)] at time 1000, [set] writes
    the envelope [{item: 0, stored: 1000, ttl: 5000}], and the decode path of
    [get] answers that very payload with [Incorrect envelope structure]
    instead of the envelope: the check [!envelope.item] takes the falsy item
    that [set] stored for a missing one. *)
Lemma falsy_item_round_trip_fails :
  sent (set (P := sample_platform) sample_connection users_1 (JNum 0) 5000 1000)
  = Some (Psetex "users:1" 5000 (sample_payload text_zero)) /\
  get_handler (P := sample_platform) (reply_bytes (sample_payload text_zero))
  = CbError (Error "Incorrect envelope structure").
Proof.
  split; reflexivity.
Qed.

(** ** get: validation of the parsed envelope *)

(** C4, in the code: a present but falsy item is not accepted. The payload of
    [{item: 0, stored: 1000, ttl: 5000}] decompresses and parses, [item] and
    [stored] both exist, and [get] answers it with
    [Incorrect envelope structure]: the check [!envelope.item] tests the
    value of the field, not its presence. *)
Lemma present_falsy_item_rejected :
  LZ4_decode (Platform := sample_platform) (sample_payload text_zero)
  = Normal (Buffer_from text_zero) /\
  JSON_parse (Platform := sample_platform)
    (Buffer_toString (Buffer_from text_zero))
  = Normal envelope_zero /\
  member envelope_zero "item" = Some (JNum 0) /\
  member envelope_zero "stored" = Some (JNum 1000) /\
  check_envelope envelope_zero
  = CbError (Error "Incorrect envelope structure") /\
  outcome (get (P := sample_platform) sample_connection users_1)
    (reply_bytes (sample_payload text_zero))
  = Some (CbError (Error "Incorrect envelope structure")).
Proof.
  repeat split; reflexivity.
Qed.

(** ** get: miss and corruption *)

(** C5 (amended): on an active connection, [get] reports a miss (a null
    result, no error) when the store answers with no error and an absent
    ([null]) result; a result that is present is decoded whatever its length,
    the zero-length buffer included: when decompressing or parsing throws,
    [get] calls back with the error [Bad envelope content], and a present
    result is never reported as a miss. [get]'s handler is a total function:
    no fault escapes it. *)
Theorem get_miss_and_corruption (P : Platform) (s : options)
  (c : redis_client) (k : key) (payload : list byte) :
  let self := {| settings := s; client := Some c |} in
  outcome (get self k) reply_ok = Some CbMiss /\
  ((exists e, LZ4_decode payload = Throw e) \/
   (exists u e, LZ4_decode payload = Normal u /\
                JSON_parse (Buffer_toString u) = Throw e) ->
   outcome (get self k) (reply_bytes payload)
   = Some (CbError (Error "Bad envelope content"))) /\
  outcome (get self k) (reply_bytes payload) <> Some CbMiss.
Proof.
  cbv zeta. unfold get. simpl. split; [reflexivity|]. split.
  - unfold get_handler, decode_envelope. simpl.
    intros [[e He] | (u & e & Hu & He)].
    + now rewrite He.
    + now rewrite Hu, He.
  - unfold get_handler. simpl. intros [= H].
    now apply check_envelope_not_miss in H.
Qed.

Lemma get_miss_and_corruption_witness :
  (exists e, LZ4_decode (Platform := sample_platform) [x00; x01] = Throw e) /\
  outcome (get (P := sample_platform) sample_connection users_1)
    (reply_bytes [x00; x01])
  = Some (CbError (Error "Bad envelope content")).
Proof.
  assert (H : exists e,
             LZ4_decode (Platform := sample_platform) [x00; x01] = Throw e)
    by (eexists; reflexivity).
  split; [exact H|].
  exact (proj1 (proj2 (get_miss_and_corruption sample_platform defaults
                         sample_client users_1 [x00; x01])) (or_introl H)).
Defined.

(** C5, as stated, fails for an empty result that is present: the zero-length
    buffer is not a miss, [get] calls back with an error. *)
Lemma empty_buffer_is_not_a_miss :
  outcome (get (P := sample_platform) sample_connection users_1)
    (reply_bytes [])
  = Some (CbError (Error "Bad envelope content")).
Proof.
  reflexivity.
Qed.

(** ** set: completion *)

(** C3, in the code: the callback of [set] is only ever called with an error.
    For [set({segment: "users", id: "1"}, {name: "Ann"}, 5000, cb)] on an
    active connection the write is sent, and on its successful reply the
    callback is not called at all. *)
Theorem set_never_reports_success (P : Platform) (self : connection) (k : key)
  (value : json) (ttl now : Z) (r : reply) :
  (outcome (set self k value ttl now) r = None \/
   exists e, outcome (set self k value ttl now) r = Some (CbError e)) /\
  sent (set (P := sample_platform) sample_connection users_1
          (JObj [("name", JStr "Ann")]) 5000 1000)
  = Some (Psetex "users:1" 5000 (sample_payload text_ann)) /\
  outcome (set (P := sample_platform) sample_connection users_1
             (JObj [("name", JStr "Ann")]) 5000 1000) reply_ok
  = None.
Proof.
  split; [|split; reflexivity].
  unfold set. destruct (client self); [|right; eexists; reflexivity].
  destruct (JSON_stringify _); [|right; eexists; reflexivity].
  destruct (LZ4_encode _); [|right; eexists; reflexivity].
  simpl. unfold set_handler.
  destruct (reply_err r); [right; eexists; reflexivity | now left].
Qed.

(** ** Further properties: get, set and drop *)

Lemma check_envelope_delivers (checked envelope : json) :
  check_envelope checked = CbEnvelope envelope ->
  envelope = checked /\
  truthy envelope = true /\
  truthy_opt (member envelope "item") = true /\
  truthy_opt (member envelope "stored") = true.
Proof.
  intros H.
  assert (He : envelope = checked).
  { unfold check_envelope in H.
    destruct (negb (truthy checked)); [discriminate|].
    destruct (negb (truthy_opt (member checked "item"))
              || negb (truthy_opt (member checked "stored")));
      [discriminate | now injection H]. }
  subst envelope. split; [reflexivity|]. now apply check_envelope_accepts.
Qed.

(** X1: for every connection, key and reply of the store, [get] calls its
    callback exactly once, and never without arguments; an error of the store
    is passed on unchanged; and an envelope it delivers is the decoded result
    of the store, is truthy, and has a truthy [item] and a truthy [stored]. *)
Theorem get_delivers_checked_envelopes (P : Platform) (self : connection)
  (k : key) (r : reply) :
  (exists args, outcome (get self k) r = Some args /\ args <> CbNothing) /\
  (forall e, client self <> None -> reply_err r = Some e ->
     outcome (get self k) r = Some (CbError e)) /\
  (forall envelope, outcome (get self k) r = Some (CbEnvelope envelope) ->
     truthy envelope = true /\
     truthy_opt (member envelope "item") = true /\
     truthy_opt (member envelope "stored") = true /\
     exists result, reply_err r = None /\ reply_result r = Some result /\
                    decode_envelope result = envelope).
Proof.
  unfold get. destruct (client self) as [c|]; simpl.
  - unfold get_handler.
    destruct (reply_err r) as [e|]; [|destruct (reply_result r) as [result|]].
    + split; [eexists; split; [reflexivity | discriminate]|].
      split; [now intros e' _ [= <-] | discriminate].
    + split.
      { eexists; split; [reflexivity|].
        intros H. unfold check_envelope in H.
        destruct (negb (truthy (decode_envelope result))); [discriminate|].
        destruct (negb (truthy_opt (member (decode_envelope result) "item"))
                  || negb (truthy_opt (member (decode_envelope result) "stored")));
          discriminate. }
      split; [discriminate|].
      intros envelope [= H].
      apply check_envelope_delivers in H as (He & Ht & Hi & Hs).
      repeat split; try assumption. exists result. now subst.
    + split; [eexists; split; [reflexivity | discriminate]|].
      split; discriminate.
  - split; [eexists; split; [reflexivity | discriminate]|].
    split; [intros e H; now elim H | discriminate].
Qed.

Lemma get_delivers_checked_envelopes_witness :
  outcome (get (P := sample_platform) sample_connection users_1)
    (reply_bytes (sample_payload text_ann))
  = Some (CbEnvelope envelope_ann) /\
  truthy_opt (member envelope_ann "item") = true.
Proof.
  assert (H : outcome (get (P := sample_platform) sample_connection users_1)
                (reply_bytes (sample_payload text_ann))
              = Some (CbEnvelope envelope_ann)) by reflexivity.
  split; [exact H|].
  exact (proj1 (proj2 (proj2 (proj2
           (get_delivers_checked_envelopes sample_platform sample_connection
              users_1 (reply_bytes (sample_payload text_ann))))
           envelope_ann H))).
Defined.

(** X2: for every connection, key and reply, [drop] calls its callback
    exactly once, with an error or with nothing; it reports success exactly
    when a client is recorded and the store answered without an error, and
    with a client it passes the error of the store on unchanged. *)
Theorem drop_outcomes (self : connection) (k : key) (r : reply) :
  (exists args, outcome (drop self k) r = Some args /\
                (args = CbNothing \/ exists e, args = CbError e)) /\
  (outcome (drop self k) r = Some CbNothing <->
   client self <> None /\ reply_err r = None) /\
  (forall e, client self <> None -> reply_err r = Some e ->
     outcome (drop self k) r = Some (CbError e)).
Proof.
  unfold drop. destruct (client self) as [c|]; simpl.
  - unfold drop_handler. destruct (reply_err r) as [e|].
    + split; [eexists; split; [reflexivity | right; now exists e]|].
      split; [|now intros e' _ [= <-]].
      split; [discriminate | intros [_ H]; discriminate].
    + split; [eexists; split; [reflexivity | now left]|].
      split; [|discriminate].
      split; [intros _; split; [discriminate | reflexivity] | reflexivity].
  - split; [eexists; split; [reflexivity | right; now eexists]|].
    split; [|intros e H; now elim H].
    split; [discriminate | intros [H _]; now elim H].
Qed.

Lemma drop_outcomes_witness :
  client sample_connection <> None /\
  reply_err reply_ok = None /\
  outcome (drop sample_connection users_1) reply_ok
  = Some CbNothing.
Proof.
  assert (Hc : client sample_connection <> None) by discriminate.
  split; [exact Hc|]. split; [reflexivity|].
  exact (proj2 (proj1 (proj2
           (drop_outcomes sample_connection users_1 reply_ok)))
           (conj Hc eq_refl)).
Defined.

(** X3: whatever [get], [set] and [drop] send for a logical key on a
    connection, they address the same store key, the one [generateKey]
    computes; the write of [set] expires after the [ttl] it was given. *)
Theorem operations_address_same_key (P : Platform) (self : connection)
  (k : key) (value : json) (ttl now : Z) (cmd : command) :
  (sent (get self k) = Some cmd -> cmd = GetBuffer (generateKey self k)) /\
  (sent (set self k value ttl now) = Some cmd ->
     exists payload, cmd = Psetex (generateKey self k) ttl payload) /\
  (sent (drop self k) = Some cmd -> cmd = Del (generateKey self k)) /\
  (sent (get self k) = Some cmd \/ sent (set self k value ttl now) = Some cmd
   \/ sent (drop self k) = Some cmd ->
     command_key cmd = generateKey self k).
Proof.
  assert (Hg : sent (get self k) = Some cmd -> cmd = GetBuffer (generateKey self k)).
  { unfold get. destruct (client self); simpl; [now intros [= <-] | discriminate]. }
  assert (Hs : sent (set self k value ttl now) = Some cmd ->
               exists payload, cmd = Psetex (generateKey self k) ttl payload).
  { unfold set. destruct (client self); simpl; [|discriminate].
    destruct (JSON_stringify _); simpl; [|discriminate].
    destruct (LZ4_encode _) as [payload|]; simpl; [|discriminate].
    intros [= <-]. now exists payload. }
  assert (Hd : sent (drop self k) = Some cmd -> cmd = Del (generateKey self k)).
  { unfold drop. destruct (client self); simpl; [now intros [= <-] | discriminate]. }
  repeat split; try assumption.
  intros [H | [H | H]].
  - now rewrite (Hg H).
  - destruct (Hs H) as [payload ->]. reflexivity.
  - now rewrite (Hd H).
Qed.

Lemma operations_address_same_key_witness :
  sent (set (P := sample_platform) sample_connection users_1
          (JObj [("name", JStr "Ann")]) 5000 1000)
  = Some (Psetex "users:1" 5000 (sample_payload text_ann)) /\
  command_key (Psetex "users:1" 5000 (sample_payload text_ann))
  = generateKey sample_connection users_1.
Proof.
  assert (H : sent (set (P := sample_platform) sample_connection users_1
                      (JObj [("name", JStr "Ann")]) 5000 1000)
              = Some (Psetex "users:1" 5000 (sample_payload text_ann)))
    by reflexivity.
  split; [exact H|].
  exact (proj2 (proj2 (proj2
           (operations_address_same_key sample_platform sample_connection
              users_1 (JObj [("name", JStr "Ann")]) 5000 1000
              (Psetex "users:1" 5000 (sample_payload text_ann)))))
           (or_intror (or_introl H))).
Defined.

(** X4: when serializing or compressing the envelope throws, [set] calls back
    with the thrown error, before it returns, and sends no write to the
    store. *)
Theorem set_encode_error (P : Platform) (s : options) (c : redis_client)
  (k : key) (value : json) (ttl now : Z) (e : error) (r : reply) :
  let self := {| settings := s; client := Some c |} in
  let envelope :=
    JObj [("item", value); ("stored", JNum now); ("ttl", JNum ttl)] in
  JSON_stringify envelope = Throw e \/
  (exists text, JSON_stringify envelope = Normal text /\
                LZ4_encode (Buffer_from text) = Throw e) ->
  set self k value ttl now = Completed (CbError e) /\
  sent (set self k value ttl now) = None /\
  outcome (set self k value ttl now) r = Some (CbError e).
Proof.
  cbv zeta. unfold set. simpl. intros [H | (text & Ht & He)].
  - rewrite H. now repeat split.
  - rewrite Ht, He. now repeat split.
Qed.

Lemma set_encode_error_witness :
  (exists text,
     JSON_stringify (Platform := failing_encoder_platform) envelope_ann
     = Normal text /\
     LZ4_encode (Platform := failing_encoder_platform) (Buffer_from text)
     = Throw (Error "Encoding failed")) /\
  sent (set (P := failing_encoder_platform) sample_connection users_1
          (JObj [("name", JStr "Ann")]) 5000 1000) = None.
Proof.
  assert (H : exists text,
             JSON_stringify (Platform := failing_encoder_platform) envelope_ann
             = Normal text /\
             LZ4_encode (Platform := failing_encoder_platform)
               (Buffer_from text)
             = Throw (Error "Encoding failed"))
    by (exists text_ann; split; reflexivity).
  split; [exact H|].
  exact (proj1 (proj2
           (set_encode_error failing_encoder_platform defaults sample_client
              users_1 (JObj [("name", JStr "Ann")]) 5000 1000
              (Error "Encoding failed") reply_ok (or_intror H)))).
Defined.

(** ** Further properties: the listeners of start *)

(** No client recorded yet, the ready listener still registered. *)
Lemma on_error_connecting (st : start_state) (err : error) :
  self_client st = None ->
  self_client (on_error st err) = None /\
  ready_listener (on_error st err) = ready_listener st /\
  end_calls (on_error st err) = S (end_calls st).
Proof.
  intros H. unfold on_error, once_call. rewrite H. simpl.
  destruct (once_called st); now repeat split.
Qed.

Lemma on_ready_connecting (c : redis_client) (st : start_state) :
  ready_listener st = true ->
  self_client (on_ready c st) = Some c /\
  ready_listener (on_ready c st) = false /\
  end_calls (on_ready c st) = end_calls st.
Proof.
  intros H. unfold on_ready, once_call. rewrite H. simpl.
  destruct (once_called st); now repeat split.
Qed.

(** Once the client is recorded, the listeners change nothing. *)
Lemma run_events_connected (c : redis_client) (evs : list client_event) :
  forall st, self_client st = Some c -> ready_listener st = false ->
             run_events c evs st = st.
Proof.
  unfold run_events.
  induction evs as [|ev evs IH]; intros st Hc Hr; simpl; [reflexivity|].
  assert (Hst : on_event c st ev = st).
  { destruct ev as [err|]; simpl.
    - unfold on_error. now rewrite Hc.
    - unfold on_ready. now rewrite Hr. }
  rewrite Hst. now apply IH.
Qed.

Lemma run_events_connecting (c : redis_client) (evs : list client_event) :
  forall st, self_client st = None -> ready_listener st = true ->
    (In EvReady evs -> self_client (run_events c evs st) = Some c) /\
    (~ In EvReady evs -> self_client (run_events c evs st) = None) /\
    end_calls (run_events c evs st)
    = (end_calls st + errors_before_ready evs)%nat.
Proof.
  unfold run_events.
  induction evs as [|ev evs IH]; intros st Hc Hr; simpl.
  - split; [intros [] | split; [intros _; exact Hc | lia]].
  - destruct ev as [err|]; simpl.
    + destruct (on_error_connecting st err Hc) as (H1 & H2 & H3).
      rewrite Hr in H2.
      destruct (IH _ H1 H2) as (I1 & I2 & I3).
      split; [|split].
      * intros [Habs | Hin]; [discriminate | now apply I1].
      * intros Hn. apply I2. intros Hin. apply Hn. now right.
      * rewrite I3, H3. lia.
    + destruct (on_ready_connecting c st Hr) as (H1 & H2 & H3).
      pose proof (run_events_connected c evs _ H1 H2) as Hfix.
      unfold run_events in Hfix. rewrite Hfix.
      split; [|split].
      * intros _. exact H1.
      * intros Hn. exfalso. apply Hn. now left.
      * rewrite H3. lia.
Qed.

(** X5: the callback of [start] is called exactly when the new client emits
    a first event, with what that first event decides: the error of a first
    ['error'], no error for a first ['ready']; without events it is never
    called. *)
Theorem start_callback_by_first_event (c : redis_client)
  (evs : list client_event) :
  callback_log (run_events c evs start_listening)
  = match evs with
    | [] => []
    | EvError err :: _ => [CbError err]
    | EvReady :: _ => [CbNothing]
    end.
Proof.
  destruct evs as [|[err|] evs]; [reflexivity | |].
  - exact (run_events_completed c evs (on_event c start_listening (EvError err))
             eq_refl).
  - exact (run_events_completed c evs (on_event c start_listening EvReady)
             eq_refl).
Qed.

(** X6: after [start], the client is recorded as [this.client] exactly when it
    has emitted ['ready'], whatever came before: when an error came first,
    [start] has completed with that error and the client is recorded all the
    same once ['ready'] follows. *)
Theorem start_records_client_iff_ready (c : redis_client)
  (evs : list client_event) (err : error) :
  (In EvReady evs ->
   self_client (run_events c evs start_listening) = Some c) /\
  (~ In EvReady evs ->
   self_client (run_events c evs start_listening) = None) /\
  (In EvReady evs ->
   callback_log (run_events c (EvError err :: evs) start_listening)
   = [CbError err] /\
   self_client (run_events c (EvError err :: evs) start_listening) = Some c).
Proof.
  destruct (run_events_connecting c evs start_listening eq_refl eq_refl)
    as (H1 & H2 & _).
  split; [exact H1|]. split; [exact H2|].
  intros Hin. split.
  - exact (run_events_completed c evs (on_event c start_listening (EvError err))
             eq_refl).
  - apply (run_events_connecting c (EvError err :: evs) start_listening
             eq_refl eq_refl).
    now right.
Qed.

Lemma start_records_client_iff_ready_witness :
  In EvReady [EvError (Error "ECONNREFUSED"); EvReady] /\
  self_client
    (run_events sample_client [EvError (Error "ECONNREFUSED"); EvReady]
       start_listening)
  = Some sample_client.
Proof.
  assert (H : In EvReady [EvError (Error "ECONNREFUSED"); EvReady])
    by (right; left; reflexivity).
  split; [exact H|].
  exact (proj1 (start_records_client_iff_ready sample_client
                  [EvError (Error "ECONNREFUSED"); EvReady]
                  (Error "ECONNREFUSED")) H).
Defined.

(** X7: [client.end(false)] is called once for every error the new client
    emits before its first ['ready'], and never for an error after it. *)
Theorem start_ends_client_per_early_error (c : redis_client)
  (evs : list client_event) :
  end_calls (run_events c evs start_listening) = errors_before_ready evs.
Proof.
  destruct (run_events_connecting c evs start_listening eq_refl eq_refl)
    as (_ & _ & H).
  exact H.
Qed.

(** ** Further properties: events and stop together *)

Lemma lifecycle_stop_without_client (lc : lifecycle) :
  self_client (lc_start lc) = None -> lifecycle_stop lc = lc.
Proof.
  intros H. destruct lc as [s st listening calls].
  destruct st as [cl once rl log ends]. simpl in H. subst cl.
  unfold lifecycle_stop, lifecycle_connection, stop. simpl.
  now rewrite !andb_true_r, app_nil_r.
Qed.

Lemma lifecycle_stop_with_client (lc : lifecycle) (c' : redis_client) :
  self_client (lc_start lc) = Some c' ->
  self_client (lc_start (lifecycle_stop lc)) = None /\
  lc_listening (lifecycle_stop lc) = false /\
  lc_calls (lifecycle_stop lc) = (lc_calls lc ++ [RemoveAllListeners; Quit])%list /\
  callback_log (lc_start (lifecycle_stop lc)) = callback_log (lc_start lc) /\
  once_called (lc_start (lifecycle_stop lc)) = once_called (lc_start lc).
Proof.
  intros H. unfold lifecycle_stop, lifecycle_connection, stop. simpl.
  rewrite H. simpl. rewrite andb_false_r. now repeat split.
Qed.

(** After [stop] has taken the listeners off and cleared the client, no step
    changes the state. *)
Lemma run_lifecycle_stopped (c : redis_client) (steps : list lifecycle_step) :
  forall lc, lc_listening lc = false -> self_client (lc_start lc) = None ->
             run_lifecycle c steps lc = lc.
Proof.
  unfold run_lifecycle.
  induction steps as [|step steps IH]; intros lc Hl Hc; simpl; [reflexivity|].
  assert (Hstep : lifecycle_do c lc step = lc).
  { destruct step as [ev|]; simpl.
    - unfold lifecycle_event. now rewrite Hl.
    - now apply lifecycle_stop_without_client. }
  rewrite Hstep. now apply IH.
Qed.

(** While the listeners are on the client, events act as in [run_events]. *)
Lemma run_lifecycle_events (c : redis_client) (evs : list client_event) :
  forall lc, lc_listening lc = true ->
    run_lifecycle c (map LcEvent evs) lc
    = {| lc_settings := lc_settings lc;
         lc_start := run_events c evs (lc_start lc);
         lc_listening := true;
         lc_calls := lc_calls lc |}.
Proof.
  unfold run_lifecycle, run_events.
  induction evs as [|ev evs IH]; intros lc Hl; simpl.
  - destruct lc; simpl in *. now subst.
  - assert (Hev : lifecycle_event c lc ev
                  = {| lc_settings := lc_settings lc;
                       lc_start := on_event c (lc_start lc) ev;
                       lc_listening := true;
                       lc_calls := lc_calls lc |})
      by (unfold lifecycle_event; now rewrite Hl).
    rewrite Hev. now rewrite IH.
Qed.

Lemma run_lifecycle_app (c : redis_client) (xs ys : list lifecycle_step)
  (lc : lifecycle) :
  run_lifecycle c (xs ++ ys) lc = run_lifecycle c ys (run_lifecycle c xs lc).
Proof.
  unfold run_lifecycle. apply fold_left_app.
Qed.

Lemma lifecycle_do_invariant (c : redis_client) (lc : lifecycle)
  (step : lifecycle_step) :
  lifecycle_invariant lc -> lifecycle_invariant (lifecycle_do c lc step).
Proof.
  intros [Hlog Hst]. destruct step as [ev|]; simpl.
  - unfold lifecycle_event. destruct (lc_listening lc) eqn:Hl.
    + split; simpl.
      * destruct (once_called (lc_start lc)) eqn:Ho.
        { destruct (on_event_completed c _ ev Ho) as [H1 H2].
          now rewrite H1, H2. }
        { destruct (on_event_log c _ ev Ho) as [[H1 H2] | [H1 [args H2]]].
          - now rewrite H1, H2.
          - rewrite H1, H2, length_app. simpl. lia. }
      * destruct Hst as [[_ Hc] | [Habs _]]; [now left | discriminate].
    + split; [exact Hlog|].
      destruct Hst as [[Habs _] | (_ & H1 & H2)]; [discriminate|].
      right. now repeat split.
  - destruct (self_client (lc_start lc)) as [c'|] eqn:Hc.
    + destruct (lifecycle_stop_with_client lc c' Hc) as (H1 & H2 & H3 & H4 & H5).
      split.
      * now rewrite H4, H5.
      * right. split; [exact H2|]. split; [exact H1|].
        destruct Hst as [[_ Hcalls] | [_ [Habs _]]].
        { now rewrite H3, Hcalls. }
        { congruence. }
    + rewrite (lifecycle_stop_without_client lc Hc).
      split; [exact Hlog|].
      destruct Hst as [H | (H1 & _ & H2)]; [now left|].
      right. now repeat split.
Qed.

Lemma run_lifecycle_invariant (c : redis_client) (steps : list lifecycle_step) :
  forall lc, lifecycle_invariant lc ->
             lifecycle_invariant (run_lifecycle c steps lc).
Proof.
  unfold run_lifecycle.
  induction steps as [|step steps IH]; intros lc H; simpl; [exact H|].
  apply IH. now apply lifecycle_do_invariant.
Qed.

Lemma lifecycle_begin_invariant (s : options) :
  lifecycle_invariant (lifecycle_begin s).
Proof.
  split; simpl; [lia | now left].
Qed.

(** X8: however the events of the new client and calls of [stop] interleave
    after [start], the callback of [start] is called at most once, and [stop]
    takes the listeners off and quits the client at most once. *)
Theorem lifecycle_completes_and_quits_once (c : redis_client) (s : options)
  (steps : list lifecycle_step) :
  let final := run_lifecycle c steps (lifecycle_begin s) in
  (List.length (callback_log (lc_start final)) <= 1)%nat /\
  (lc_calls final = [] \/ lc_calls final = [RemoveAllListeners; Quit]).
Proof.
  cbv zeta.
  destruct (run_lifecycle_invariant c steps _ (lifecycle_begin_invariant s))
    as [Hlog Hst].
  split.
  - destruct (once_called _) in Hlog; lia.
  - destruct Hst as [[_ H] | [_ [_ H]]]; [now left | now right].
Qed.

(** X9: a [stop] called before the new client has emitted ['ready'] is lost:
    no client is recorded yet, so it leaves the listeners on, and the life
    cycle goes on as if it had not been called; a ['ready'] that follows
    records the client, and the connection is active after the [stop]. *)
Theorem stop_while_connecting_is_lost (c : redis_client) (s : options)
  (pre : list client_event) (rest : list lifecycle_step) :
  ~ In EvReady pre ->
  run_lifecycle c (map LcEvent pre ++ LcStop :: rest) (lifecycle_begin s)
  = run_lifecycle c (map LcEvent pre ++ rest) (lifecycle_begin s) /\
  client (lifecycle_connection
            (run_lifecycle c (map LcEvent pre ++ [LcStop; LcEvent EvReady])
               (lifecycle_begin s)))
  = Some c.
Proof.
  intros Hpre.
  assert (Hlost : forall rest',
             run_lifecycle c (map LcEvent pre ++ LcStop :: rest')
               (lifecycle_begin s)
             = run_lifecycle c (map LcEvent pre ++ rest') (lifecycle_begin s)).
  { intros rest'. rewrite !run_lifecycle_app.
    rewrite (run_lifecycle_events c pre (lifecycle_begin s) eq_refl).
    unfold run_lifecycle at 1. simpl fold_left at 1.
    rewrite lifecycle_stop_without_client; [reflexivity|]. simpl.
    now apply (run_events_connecting c pre start_listening eq_refl eq_refl). }
  split; [apply Hlost|].
  rewrite Hlost.
  change [LcEvent EvReady] with (map LcEvent [EvReady]).
  rewrite <- map_app.
  rewrite (run_lifecycle_events c (pre ++ [EvReady]) (lifecycle_begin s) eq_refl).
  simpl.
  apply (run_events_connecting c (pre ++ [EvReady]) start_listening
           eq_refl eq_refl).
  apply in_or_app. right. now left.
Qed.

Lemma stop_while_connecting_is_lost_witness :
  ~ In EvReady [EvError (Error "ECONNREFUSED")] /\
  client (lifecycle_connection
            (run_lifecycle sample_client
               (map LcEvent [EvError (Error "ECONNREFUSED")]
                ++ [LcStop; LcEvent EvReady])
               (lifecycle_begin defaults)))
  = Some sample_client.
Proof.
  assert (H : ~ In EvReady [EvError (Error "ECONNREFUSED")]).
  { intros [Habs | []]. discriminate. }
  split; [exact H|].
  exact (proj2 (stop_while_connecting_is_lost sample_client defaults
                  [EvError (Error "ECONNREFUSED")] [] H)).
Defined.

(** X10: a [stop] called while the client that [start] created is recorded
    is final: it calls [removeAllListeners()] and [quit()] on the client and
    clears it, and no later event of that client and no later [stop] changes
    anything: the client stays cleared, [isReady()] stays false, and [get]
    calls back with [Connection not started]. *)
Theorem stop_after_ready_is_final (P : Platform) (c : redis_client)
  (lc : lifecycle) (steps : list lifecycle_step) (k : key) :
  self_client (lc_start lc) = Some c ->
  let stopped := lifecycle_stop lc in
  let final := run_lifecycle c steps stopped in
  final = stopped /\
  lc_calls stopped = (lc_calls lc ++ [RemoveAllListeners; Quit])%list /\
  client (lifecycle_connection final) = None /\
  isReady (lifecycle_connection final) = false /\
  get (lifecycle_connection final) k = Completed (CbError not_started).
Proof.
  intros Hc. cbv zeta.
  destruct (lifecycle_stop_with_client lc c Hc) as (H1 & H2 & H3 & _ & _).
  rewrite (run_lifecycle_stopped c steps _ H2 H1).
  split; [reflexivity|]. split; [exact H3|].
  assert (Hcl : client (lifecycle_connection (lifecycle_stop lc)) = None)
    by exact H1.
  split; [exact Hcl|].
  split; [unfold isReady | unfold get]; now rewrite Hcl.
Qed.

Lemma stop_after_ready_is_final_witness :
  self_client
    (lc_start (run_lifecycle sample_client [LcEvent EvReady]
                 (lifecycle_begin defaults)))
  = Some sample_client /\
  client
    (lifecycle_connection
       (run_lifecycle sample_client [LcEvent EvReady; LcStop]
          (lifecycle_stop
             (run_lifecycle sample_client [LcEvent EvReady]
                (lifecycle_begin defaults)))))
  = None.
Proof.
  assert (H : self_client
                (lc_start (run_lifecycle sample_client [LcEvent EvReady]
                             (lifecycle_begin defaults)))
              = Some sample_client) by reflexivity.
  split; [exact H|].
  exact (proj1 (proj2 (proj2
           (stop_after_ready_is_final sample_platform sample_client
              (run_lifecycle sample_client [LcEvent EvReady]
                 (lifecycle_begin defaults))
              [LcEvent EvReady; LcStop] users_1 H)))).
Defined.

Lemma run_session_stopped (P : Platform) (c : redis_client)
  (steps : list session_step) :
  forall lc, lc_listening lc = false -> self_client (lc_start lc) = None ->
    Forall (fun op => op = Completed (CbError not_started))
      (run_session c steps lc).
Proof.
  induction steps as [|step steps IH]; intros lc Hl Hc; simpl; [constructor|].
  assert (Hcl : client (lifecycle_connection lc) = None) by exact Hc.
  destruct step as [ev | [k | k value ttl now | k |]]; simpl.
  - unfold lifecycle_event. rewrite Hl. now apply IH.
  - constructor; [unfold get; now rewrite Hcl | now apply IH].
  - constructor; [unfold set; now rewrite Hcl | now apply IH].
  - constructor; [unfold drop; now rewrite Hcl | now apply IH].
  - rewrite (lifecycle_stop_without_client lc Hc). now apply IH.
Qed.

(** C6 (amended): on the connection [stop] leaves, [get], [set] and [drop]
    call back with the error [Connection not started] and send nothing, and
    so does every [get], [set] and [drop] of a sequence of such calls and
    further [stop]s made before the client emits an event; and when [stop]
    ran while the client that [start] created was recorded, so does every
    later [get], [set] and [drop], whatever events that client emits
    afterwards and however often [stop] is called again. *)
Theorem operations_after_stop (P : Platform) (self : connection)
  (k : key) (value : json) (ttl now : Z) (calls : list api_call)
  (c : redis_client) (lc : lifecycle) (steps : list session_step) :
  let stopped := fst (stop self) in
  get stopped k = Completed (CbError (Error "Connection not started")) /\
  set stopped k value ttl now
  = Completed (CbError (Error "Connection not started")) /\
  drop stopped k = Completed (CbError (Error "Connection not started")) /\
  Forall (fun op => op = Completed (CbError (Error "Connection not started")))
    (perform_all stopped calls) /\
  (self_client (lc_start lc) = Some c ->
   Forall (fun op => op = Completed (CbError (Error "Connection not started")))
     (run_session c steps (lifecycle_stop lc))).
Proof.
  cbv zeta. pose proof (stop_clears self) as H.
  split; [|split; [|split; [|split]]].
  - unfold get. now rewrite H.
  - unfold set. now rewrite H.
  - unfold drop. now rewrite H.
  - apply perform_all_not_started. exact H.
  - intros Hc.
    destruct (lifecycle_stop_with_client lc c Hc) as (H1 & H2 & _).
    now apply run_session_stopped.
Qed.

Lemma operations_after_stop_witness :
  self_client
    (lc_start (run_lifecycle sample_client [LcEvent EvReady]
                 (lifecycle_begin defaults)))
  = Some sample_client /\
  Forall (fun op => op = Completed (CbError (Error "Connection not started")))
    (run_session (P := sample_platform) sample_client
       [SsEvent EvReady; SsCall (CallGet users_1); SsCall CallStop;
        SsEvent (EvError (Error "ECONNRESET")); SsCall (CallDrop users_1);
        SsCall (CallSet users_1 (JNum 7) 5000 1000)]
       (lifecycle_stop
          (run_lifecycle sample_client [LcEvent EvReady]
             (lifecycle_begin defaults)))).
Proof.
  assert (H : self_client
                (lc_start (run_lifecycle sample_client [LcEvent EvReady]
                             (lifecycle_begin defaults)))
              = Some sample_client) by reflexivity.
  split; [exact H|].
  exact (proj2 (proj2 (proj2 (proj2
           (operations_after_stop sample_platform sample_connection users_1
              JNull 0 0 [] sample_client
              (run_lifecycle sample_client [LcEvent EvReady]
                 (lifecycle_begin defaults))
              [SsEvent EvReady; SsCall (CallGet users_1); SsCall CallStop;
               SsEvent (EvError (Error "ECONNRESET")); SsCall (CallDrop users_1);
               SsCall (CallSet users_1 (JNum 7) 5000 1000)])))) H).
Defined.

(** C6, as stated, fails when [stop] runs while [start] is still connecting:
    [stop] does nothing, the ['ready'] that follows records the client, and
    the [get] and the [drop] after it send their commands instead of calling
    back with [Connection not started]. *)
Lemma stop_while_connecting_then_ready_serves :
  map sent
    (run_session (P := sample_platform) sample_client
       [SsCall CallStop; SsEvent EvReady;
        SsCall (CallGet users_1); SsCall (CallDrop users_1)]
       (lifecycle_begin defaults))
  = [Some (GetBuffer "users:1"); Some (Del "users:1")].
Proof.
  reflexivity.
Qed.

Lemma on_error_client (st : start_state) (err : error) :
  self_client (on_error st err) = self_client st.
Proof.
  unfold on_error. destruct (self_client st) eqn:Hc; [exact Hc|].
  unfold once_call. simpl. now destruct (once_called st).
Qed.

Lemma on_ready_client (c : redis_client) (st : start_state) :
  self_client (on_ready c st) = Some c \/
  self_client (on_ready c st) = self_client st.
Proof.
  unfold on_ready. destruct (ready_listener st); [left | now right].
  unfold once_call. simpl. now destruct (once_called st).
Qed.

Lemma lifecycle_do_client (c x : redis_client) (lc : lifecycle)
  (step : lifecycle_step) :
  self_client (lc_start (lifecycle_do c lc step)) = Some x ->
  self_client (lc_start lc) = Some x \/ (x = c /\ step = LcEvent EvReady).
Proof.
  destruct step as [[err|]|]; simpl.
  - unfold lifecycle_event. destruct (lc_listening lc); simpl;
      [rewrite on_error_client|]; intros H; now left.
  - unfold lifecycle_event. destruct (lc_listening lc); simpl;
      [|intros H; now left].
    destruct (on_ready_client c (lc_start lc)) as [H | H]; rewrite H; intros H'.
    + injection H' as <-. right. now split.
    + now left.
  - unfold lifecycle_stop, lifecycle_connection, stop. simpl.
    destruct (self_client (lc_start lc)); simpl; discriminate.
Qed.

(** X11: after [start] without a supplied client, [isReady()] is true only if
    the new client has emitted ['ready'] and its status is [ready], however
    events and calls of [stop] interleave. *)
Theorem isReady_needs_ready_event (c : redis_client) (s : options)
  (steps : list lifecycle_step) :
  isReady (lifecycle_connection (run_lifecycle c steps (lifecycle_begin s)))
  = true ->
  In (LcEvent EvReady) steps /\ status c = "ready".
Proof.
  assert (Hgen : forall steps' lc x,
             self_client (lc_start (run_lifecycle c steps' lc)) = Some x ->
             self_client (lc_start lc) = Some x \/
             (x = c /\ In (LcEvent EvReady) steps')).
  { unfold run_lifecycle.
    induction steps' as [|step steps' IH]; intros lc x H; simpl in *.
    - now left.
    - destruct (IH _ _ H) as [H1 | [-> Hin]].
      + destruct (lifecycle_do_client c x lc step H1) as [H2 | [-> ->]].
        * now left.
        * right. split; [reflexivity | now left].
      + right. split; [reflexivity | now right]. }
  unfold isReady, lifecycle_connection. simpl.
  destruct (self_client (lc_start (run_lifecycle c steps (lifecycle_begin s))))
    as [x|] eqn:Hx; [|discriminate].
  intros Hs. apply String.eqb_eq in Hs.
  destruct (Hgen _ _ _ Hx) as [Habs | [-> Hin]]; [discriminate|].
  now split.
Qed.

Lemma isReady_needs_ready_event_witness :
  isReady (lifecycle_connection
             (run_lifecycle sample_client
                [LcEvent (EvError (Error "ECONNREFUSED")); LcEvent EvReady]
                (lifecycle_begin defaults)))
  = true /\
  In (LcEvent EvReady)
    [LcEvent (EvError (Error "ECONNREFUSED")); LcEvent EvReady].
Proof.
  assert (H : isReady (lifecycle_connection
                (run_lifecycle sample_client
                   [LcEvent (EvError (Error "ECONNREFUSED")); LcEvent EvReady]
                   (lifecycle_begin defaults)))
              = true) by reflexivity.
  split; [exact H|].
  exact (proj1 (isReady_needs_ready_event sample_client defaults
                  [LcEvent (EvError (Error "ECONNREFUSED")); LcEvent EvReady]
                  H)).
Defined.

(** X12: [stop] keeps the settings: store keys are the same after it, and a
    [start] after it connects anew from the settings, also when the client it
    cleared had been supplied to the constructor. *)
Theorem restart_after_stop (self : connection) (k : key) :
  settings (fst (stop self)) = settings self /\
  generateKey (fst (stop self)) k = generateKey self k /\
  start (fst (stop self)) = StartConnect (create_client (settings self)).
Proof.
  unfold stop, start, generateKey.
  destruct (client self) eqn:Hc; simpl; [now repeat split|].
  rewrite Hc. now repeat split.
Qed.

(** ** Further properties: store keys *)

Lemma append_associative (a b c : string) : (a ++ b) ++ c = a ++ (b ++ c).
Proof.
  induction a as [|x a IH]; simpl; [reflexivity | now rewrite IH].
Qed.

Lemma in_append (c : ascii) (a b : string) :
  In c (list_ascii_of_string (a ++ b)) <->
  In c (list_ascii_of_string a) \/ In c (list_ascii_of_string b).
Proof.
  induction a as [|x a IH]; simpl.
  - tauto.
  - rewrite IH. tauto.
Qed.

(** A colon-free prefix before the separator is determined by the whole. *)
Lemma split_at_separator (a b x y : string) :
  colon_free a -> colon_free b ->
  a ++ ":" ++ x = b ++ ":" ++ y -> a = b /\ x = y.
Proof.
  unfold colon_free. revert b.
  induction a as [|c a IH]; intros [|d b] Ha Hb H; simpl in *.
  - injection H as H. now split.
  - injection H as Hd _. exfalso. apply Hb. now left.
  - injection H as Hc _. exfalso. apply Ha. now left.
  - injection H as Hcd H. subst d.
    destruct (IH b) as [-> ->]; [tauto | tauto | exact H | now split].
Qed.

Lemma generateKey_collision (self : connection) (a b c : string) :
  generateKey self {| segment := a ++ ":" ++ b; id := c |}
  = generateKey self {| segment := a; id := b ++ ":" ++ c |}.
Proof.
  unfold generateKey, join.
  destruct (partition (settings self)) as [p|];
    [destruct (negb (p =? "")%string)|]; simpl;
    now rewrite !append_associative.
Qed.

Lemma validateSegmentName_accepts (name : string) :
  validateSegmentName name = None <->
  name <> "" /\ ~ In nul (list_ascii_of_string name).
Proof.
  unfold validateSegmentName.
  destruct (String.eqb_spec name "") as [->|Hne].
  - split; [discriminate | intros [H _]; now elim H].
  - destruct (indexOf name nul =? -1) eqn:E; simpl.
    + apply Z.eqb_eq, indexOf_absent in E. tauto.
    + apply Z.eqb_neq in E. rewrite indexOf_absent in E.
      split; [discriminate | intros [_ H]; contradiction].
Qed.

(** X13: on one connection, logical keys whose segments hold no [:] have
    distinct store keys: equal store keys mean equal segment and equal id. *)
Theorem generateKey_injective (self : connection) (k1 k2 : key) :
  colon_free (segment k1) -> colon_free (segment k2) ->
  generateKey self k1 = generateKey self k2 -> k1 = k2.
Proof.
  intros H1 H2 Heq.
  assert (Hsplit : segment k1 ++ ":" ++ id k1 = segment k2 ++ ":" ++ id k2).
  { destruct (truthy_str (partition (settings self))) eqn:Hp.
    - unfold truthy_str in Hp.
      destruct (partition (settings self)) as [p|] eqn:Ep; [|discriminate].
      assert (Hne : p <> "") by (intros ->; discriminate).
      rewrite !(generateKey_partitioned self p _ Ep Hne) in Heq.
      apply append_cancel_l in Heq. now injection Heq.
    - now rewrite !generateKey_unpartitioned in Heq by exact Hp. }
  destruct (split_at_separator _ _ _ _ H1 H2 Hsplit) as [Hs Hi].
  destruct k1, k2. simpl in *. now subst.
Qed.

Lemma generateKey_injective_witness :
  colon_free (segment users_1) /\
  generateKey sample_connection users_1 = generateKey sample_connection users_1 /\
  users_1 = users_1.
Proof.
  assert (H : colon_free (segment users_1)).
  { unfold colon_free. simpl. intros [Habs | [Habs | [Habs | [Habs | [Habs | []]]]]];
      discriminate. }
  split; [exact H|]. split; [reflexivity|].
  exact (generateKey_injective sample_connection users_1 users_1 H H eq_refl).
Defined.

(** X14: across connections with non-empty partitions, when the partitions
    and the segments hold no [:], equal store keys mean equal partition,
    segment and id: partitions isolate the caches that share a store. *)
Theorem generateKey_injective_across_partitions (self1 self2 : connection)
  (p1 p2 : string) (k1 k2 : key) :
  partition (settings self1) = Some p1 -> p1 <> "" -> colon_free p1 ->
  partition (settings self2) = Some p2 -> p2 <> "" -> colon_free p2 ->
  colon_free (segment k1) -> colon_free (segment k2) ->
  generateKey self1 k1 = generateKey self2 k2 ->
  p1 = p2 /\ k1 = k2.
Proof.
  intros E1 N1 C1 E2 N2 C2 S1 S2 Heq.
  rewrite (generateKey_partitioned self1 p1 k1 E1 N1) in Heq.
  rewrite (generateKey_partitioned self2 p2 k2 E2 N2) in Heq.
  destruct (split_at_separator _ _ _ _ C1 C2 Heq) as [Hp Hrest].
  destruct (split_at_separator _ _ _ _ S1 S2 Hrest) as [Hs Hi].
  split; [exact Hp|]. destruct k1, k2. simpl in *. now subst.
Qed.

Lemma generateKey_injective_across_partitions_witness :
  colon_free "tenant" /\ colon_free (segment users_1) /\
  generateKey tenant_connection users_1 = generateKey tenant_connection users_1 /\
  "tenant" = "tenant".
Proof.
  assert (Hne : "tenant" <> "") by discriminate.
  assert (Hp : colon_free "tenant").
  { unfold colon_free. simpl. intuition discriminate. }
  assert (Hs : colon_free (segment users_1)).
  { unfold colon_free. simpl. intuition discriminate. }
  split; [exact Hp|]. split; [exact Hs|]. split; [reflexivity|].
  exact (proj1 (generateKey_injective_across_partitions
                  tenant_connection tenant_connection "tenant" "tenant"
                  users_1 users_1 eq_refl Hne Hp eq_refl Hne Hp Hs Hs
                  eq_refl)).
Defined.

(** X15: the separator is not escaped: for all strings [a], [b] and [c] the
    logical keys with segment [a:b], id [c] and with segment [a], id [b:c]
    are different and have the same store key, on every connection. *)
Theorem generateKey_separator_collision (self : connection) (a b c : string) :
  {| segment := a ++ ":" ++ b; id := c |}
  <> {| segment := a; id := b ++ ":" ++ c |} /\
  generateKey self {| segment := a ++ ":" ++ b; id := c |}
  = generateKey self {| segment := a; id := b ++ ":" ++ c |}.
Proof.
  split; [|apply generateKey_collision].
  intros [= H _]. apply (f_equal String.length) in H.
  rewrite length_append in H. simpl in H. lia.
Qed.

(** X16: a partition does not isolate a cache from one without a partition:
    the store key of segment [seg], id [i] under the partition [p] is the
    store key of segment [p], id [seg:i] on a connection without
    partition. *)
Theorem generateKey_partition_collision (self1 self2 : connection)
  (p seg i : string) :
  partition (settings self1) = Some p -> p <> "" ->
  truthy_str (partition (settings self2)) = false ->
  generateKey self1 {| segment := seg; id := i |}
  = generateKey self2 {| segment := p; id := seg ++ ":" ++ i |}.
Proof.
  intros Ep Hne Hp.
  rewrite (generateKey_partitioned self1 p _ Ep Hne).
  now rewrite (generateKey_unpartitioned self2 _ Hp).
Qed.

Lemma generateKey_partition_collision_witness :
  partition (settings tenant_connection) = Some "tenant" /\
  "tenant" <> "" /\
  truthy_str (partition (settings sample_connection)) = false /\
  generateKey tenant_connection users_1
  = generateKey sample_connection {| segment := "tenant"; id := "users:1" |}.
Proof.
  assert (Hne : "tenant" <> "") by discriminate.
  split; [reflexivity|]. split; [exact Hne|]. split; [reflexivity|].
  exact (generateKey_partition_collision tenant_connection sample_connection
           "tenant" "users" "1" eq_refl Hne eq_refl).
Defined.

(** X17: [validateSegmentName] does not keep the separator out of segment
    names: when it accepts [a] and [b] it accepts [a:b] too, and the segment
    [a:b] with id [c] has the store key of the segment [a] with id [b:c]. *)
Theorem valid_segment_names_collide (self : connection) (a b c : string) :
  validateSegmentName a = None -> validateSegmentName b = None ->
  validateSegmentName (a ++ ":" ++ b) = None /\
  generateKey self {| segment := a ++ ":" ++ b; id := c |}
  = generateKey self {| segment := a; id := b ++ ":" ++ c |}.
Proof.
  intros Ha Hb. split; [|apply generateKey_collision].
  apply validateSegmentName_accepts in Ha as [Hne Hna].
  apply validateSegmentName_accepts in Hb as [_ Hnb].
  apply validateSegmentName_accepts. split.
  - destruct a; [now elim Hne | discriminate].
  - rewrite in_append. intros [H | H]; [now apply Hna|].
    apply (in_append nul ":" b) in H as [[H | []] | H];
      [discriminate | now apply Hnb].
Qed.

Lemma valid_segment_names_collide_witness :
  validateSegmentName "users" = None /\
  validateSegmentName "admins" = None /\
  validateSegmentName ("users" ++ ":" ++ "admins") = None.
Proof.
  split; [reflexivity|]. split; [reflexivity|].
  exact (proj1 (valid_segment_names_collide sample_connection
                  "users" "admins" "1" eq_refl eq_refl)).
Defined.

(** ** Further properties: construction and decoding *)

(** X18: a connection constructed with a client is active at once: [start]
    creates nothing and defers its callback, [get] sends its command without
    a [start], and [isReady()] is the client's status being [ready]. *)
Theorem supplied_client_is_active (P : Platform) (user : given_options)
  (c : redis_client) (k : key) :
  read (given_client user) = Some c ->
  start (Connection user) = StartNextTick /\
  sent (get (Connection user) k)
  = Some (GetBuffer (generateKey (Connection user) k)) /\
  isReady (Connection user) = (status c =? "ready")%string.
Proof.
  intros H. unfold start, get, isReady, Connection. simpl. rewrite H.
  now repeat split.
Qed.

Lemma supplied_client_is_active_witness :
  read (given_client supplied_options) = Some sample_client /\
  start (Connection supplied_options) = StartNextTick /\
  isReady (Connection supplied_options) = true.
Proof.
  split; [reflexivity|].
  pose proof (supplied_client_is_active sample_platform supplied_options
                sample_client users_1 eq_refl) as (H1 & _ & H3).
  split; [exact H1 | exact H3].
Defined.

(** X19: the database index [0] given as [database] does not take precedence:
    [database || db] passes [db] to the new client when [database] is [0],
    in every topology mode. *)
Theorem database_zero_falls_back_to_db (s : options) :
  database s = Some 0 ->
  o_db (call_options (create_client s)) = db s.
Proof.
  intros H. unfold create_client, js_or. rewrite H. simpl.
  destruct (has_sentinels s); [reflexivity|].
  destruct (truthy_str (url s)); [reflexivity|].
  now destruct (truthy_str (socket s)).
Qed.

Lemma database_zero_falls_back_to_db_witness :
  database (Object_assign defaults sample_options) = Some 0 /\
  o_db (call_options (create_client (Object_assign defaults sample_options)))
  = Some 3.
Proof.
  split; [reflexivity|].
  exact (database_zero_falls_back_to_db
           (Object_assign defaults sample_options) eq_refl).
Defined.

(** X20: a payload that decompresses and parses to anything but an object is
    never delivered: [get] calls back with [Incorrect envelope structure] for
    a truthy value (a number, a string, [true], an array) and with
    [Bad envelope content] for a falsy one ([null], [0], the empty string,
    [false]). *)
Theorem get_rejects_non_objects (P : Platform) (payload u : list byte)
  (parsed : json) :
  LZ4_decode payload = Normal u ->
  JSON_parse (Buffer_toString u) = Normal parsed ->
  (forall fields, parsed <> JObj fields) ->
  get_handler (reply_bytes payload)
  = CbError (Error (if truthy parsed then "Incorrect envelope structure"
                    else "Bad envelope content")).
Proof.
  intros Hd Hp Hobj.
  unfold get_handler, decode_envelope. simpl. rewrite Hd, Hp.
  unfold check_envelope.
  destruct (truthy parsed) eqn:Ht; simpl; [|reflexivity].
  destruct parsed; simpl; try reflexivity.
  now elim (Hobj fields).
Qed.

Lemma get_rejects_non_objects_witness :
  LZ4_decode (Platform := scalar_platform) (sample_payload "42")
  = Normal (Buffer_from "42") /\
  JSON_parse (Platform := scalar_platform)
    (Buffer_toString (Buffer_from "42"))
  = Normal (JNum 42) /\
  get_handler (P := scalar_platform) (reply_bytes (sample_payload "42"))
  = CbError (Error "Incorrect envelope structure").
Proof.
  split; [reflexivity|]. split; [reflexivity|].
  refine (get_rejects_non_objects scalar_platform (sample_payload "42")
            (Buffer_from "42") (JNum 42) eq_refl eq_refl _).
  intros fields. discriminate.
Defined.

(** ** Further properties: the envelope *)

(** X21: on a platform whose decoding inverts its encoding, when [set] has
    serialized and compressed the envelope of a truthy value at a time stamp
    other than zero, it writes a payload for which [get] on the same
    connection and key delivers the envelope with that item, that time stamp
    and that ttl. *)
Theorem set_get_round_trip (P : Platform) (L : PlatformLaws P)
  (self : connection) (c : redis_client) (k : key) (v : json) (t now : Z)
  (text : string) (payload : list byte) :
  now <> 0 -> truthy v = true ->
  client self = Some c ->
  JSON_stringify (JObj [("item", v); ("stored", JNum now); ("ttl", JNum t)])
  = Normal text ->
  LZ4_encode (Buffer_from text) = Normal payload ->
  sent (set self k v t now) = Some (Psetex (generateKey self k) t payload) /\
  outcome (get self k) (reply_bytes payload)
  = Some (CbEnvelope
            (JObj [("item", v); ("stored", JNum now); ("ttl", JNum t)])).
Proof.
  intros Hnow Hv Hc Hs He. split.
  - unfold set. now rewrite Hc, Hs, He.
  - unfold get. rewrite Hc. simpl. unfold get_handler. simpl.
    rewrite (decode_envelope_encoded P L _ _ _ Hs He).
    unfold check_envelope. simpl.
    apply Z.eqb_neq in Hnow. now rewrite Hnow, Hv.
Qed.

Lemma set_get_round_trip_witness :
  1000 <> 0 /\
  truthy (JObj [("name", JStr "Ann")]) = true /\
  sent (set (P := sample_platform) sample_connection users_1
          (JObj [("name", JStr "Ann")]) 5000 1000)
  = Some (Psetex "users:1" 5000 (sample_payload text_ann)) /\
  outcome (get (P := sample_platform) sample_connection users_1)
    (reply_bytes (sample_payload text_ann))
  = Some (CbEnvelope envelope_ann).
Proof.
  assert (Hn : 1000 <> 0) by discriminate.
  pose proof (set_get_round_trip sample_platform sample_platform_laws
                sample_connection sample_client users_1
                (JObj [("name", JStr "Ann")]) 5000 1000
                text_ann (sample_payload text_ann)
                Hn eq_refl eq_refl eq_refl eq_refl) as [Hsent Hget].
  split; [exact Hn|]. split; [reflexivity|].
  split; [exact Hsent | exact Hget].
Defined.

(** X22: [get] delivers a decoded object unchanged whenever its [item] and its
    [stored] are truthy: no other field is looked at, the [ttl] included, and
    the time stamp is not compared with the clock. *)
Theorem get_delivers_truthy_envelopes (P : Platform) (payload u : list byte)
  (parsed item stored : json) :
  LZ4_decode payload = Normal u ->
  JSON_parse (Buffer_toString u) = Normal parsed ->
  member parsed "item" = Some item -> truthy item = true ->
  member parsed "stored" = Some stored -> truthy stored = true ->
  get_handler (reply_bytes payload) = CbEnvelope parsed.
Proof.
  intros Hd Hp Hi Hti Hs Hts.
  unfold get_handler, decode_envelope. simpl. rewrite Hd, Hp.
  apply check_envelope_accepts. rewrite Hi, Hs. simpl.
  repeat split; try assumption.
  destruct parsed; try discriminate. reflexivity.
Qed.

Lemma get_delivers_truthy_envelopes_witness :
  member envelope_ann "item" = Some (JObj [("name", JStr "Ann")]) /\
  member envelope_ann "stored" = Some (JNum 1000) /\
  get_handler (P := sample_platform) (reply_bytes (sample_payload text_ann))
  = CbEnvelope envelope_ann.
Proof.
  split; [reflexivity|]. split; [reflexivity|].
  exact (get_delivers_truthy_envelopes sample_platform
           (sample_payload text_ann) (Buffer_from text_ann) envelope_ann
           (JObj [("name", JStr "Ann")]) (JNum 1000)
           eq_refl eq_refl eq_refl eq_refl eq_refl eq_refl).
Defined.
